(** * vkb::core::Image -- a shallow embedding of framework/core/image.cpp

    The image resource owns (or borrows) a device-side image handle together
    with its backing allocation, keeps a set of back-pointers to dependent
    image views, and mediates map/unmap, move and destruction.

    Calls into the memory allocator, the logger and the image views are
    observable effects: every operation is a computation over a [World]
    holding the allocator's state, the trace of calls made so far and, for
    each image view, the image it currently points to. *)

From Stdlib Require Import ZArith String List Bool Lia.
From stdpp Require Import base option gmap.
Import ListNotations.

Local Open Scope Z_scope.

(** ** Vulkan and allocator data *)

(** [uint32_t] values are integers in [0, 2^32); [++] wraps around. *)
Definition uint32_t := Z.
Definition UINT32_MOD : Z := 2 ^ 32.
Definition uint32_incr (n : uint32_t) : uint32_t := (n + 1) mod UINT32_MOD.

(** Handles and pointers are addresses; 0 is the null sentinel. *)
Definition ptr := Z.
Definition nullptr : ptr := 0.
Definition VkImage := Z.
Definition VmaAllocation := Z.
Definition VK_NULL_HANDLE : Z := 0.
Definition Device := Z.

Definition VkResult := Z.
Definition VK_SUCCESS : VkResult := 0.

Definition VkFormat := Z.
Definition VmaMemoryUsage := Z.
Definition VkFlags := uint32_t.
Definition VkImageUsageFlags := VkFlags.
Definition VkMemoryPropertyFlags := VkFlags.
Definition VkSampleCountFlagBits := Z.

Definition VK_IMAGE_USAGE_TRANSIENT_ATTACHMENT_BIT : VkFlags := 64.
Definition VK_MEMORY_PROPERTY_LAZILY_ALLOCATED_BIT : VkFlags := 16.
Definition VK_SAMPLE_COUNT_1_BIT : VkSampleCountFlagBits := 1.
Definition VK_STRUCTURE_TYPE_IMAGE_CREATE_INFO : Z := 14.

Inductive VkImageType :=
| VK_IMAGE_TYPE_1D
| VK_IMAGE_TYPE_2D
| VK_IMAGE_TYPE_3D.

Inductive VkImageTiling :=
| VK_IMAGE_TILING_OPTIMAL
| VK_IMAGE_TILING_LINEAR.

Definition VkImageTiling_eqb (a b : VkImageTiling) : bool :=
  match a, b with
  | VK_IMAGE_TILING_OPTIMAL, VK_IMAGE_TILING_OPTIMAL => true
  | VK_IMAGE_TILING_LINEAR, VK_IMAGE_TILING_LINEAR => true
  | _, _ => false
  end.

Record VkExtent3D := {
  width : uint32_t;
  height : uint32_t;
  depth : uint32_t
}.

Record VkImageSubresource := {
  aspectMask : VkFlags;
  mipLevel : uint32_t;
  arrayLayer : uint32_t
}.

Module VkImageCreateInfo.
Record t := {
  sType : Z;
  imageType : VkImageType;
  format : VkFormat;
  extent : VkExtent3D;
  mipLevels : uint32_t;
  arrayLayers : uint32_t;
  samples : VkSampleCountFlagBits;
  tiling : VkImageTiling;
  usage : VkImageUsageFlags
}.
End VkImageCreateInfo.

Module VmaAllocationCreateInfo.
Record t := {
  usage : VmaMemoryUsage;
  preferredFlags : VkMemoryPropertyFlags
}.
End VmaAllocationCreateInfo.

(** ** The image resource *)

Record Image := {
  device : Device;
  handle : VkImage;
  memory : VmaAllocation;
  type : VkImageType;
  extent : VkExtent3D;
  format : VkFormat;
  sample_count : VkSampleCountFlagBits;
  usage : VkImageUsageFlags;
  tiling : VkImageTiling;
  subresource : VkImageSubresource;
  mapped_data : ptr;
  mapped : bool;
  views : gset ptr
}.

Definition set_handle (v : VkImage) (i : Image) : Image :=
  {| device := device i; handle := v; memory := memory i; type := type i;
     extent := extent i; format := format i; sample_count := sample_count i;
     usage := usage i; tiling := tiling i; subresource := subresource i;
     mapped_data := mapped_data i; mapped := mapped i; views := views i |}.

Definition set_memory (v : VmaAllocation) (i : Image) : Image :=
  {| device := device i; handle := handle i; memory := v; type := type i;
     extent := extent i; format := format i; sample_count := sample_count i;
     usage := usage i; tiling := tiling i; subresource := subresource i;
     mapped_data := mapped_data i; mapped := mapped i; views := views i |}.

Definition set_mapped_data (v : ptr) (i : Image) : Image :=
  {| device := device i; handle := handle i; memory := memory i; type := type i;
     extent := extent i; format := format i; sample_count := sample_count i;
     usage := usage i; tiling := tiling i; subresource := subresource i;
     mapped_data := v; mapped := mapped i; views := views i |}.

Definition set_mapped (v : bool) (i : Image) : Image :=
  {| device := device i; handle := handle i; memory := memory i; type := type i;
     extent := extent i; format := format i; sample_count := sample_count i;
     usage := usage i; tiling := tiling i; subresource := subresource i;
     mapped_data := mapped_data i; mapped := v; views := views i |}.

Definition set_views (v : gset ptr) (i : Image) : Image :=
  {| device := device i; handle := handle i; memory := memory i; type := type i;
     extent := extent i; format := format i; sample_count := sample_count i;
     usage := usage i; tiling := tiling i; subresource := subresource i;
     mapped_data := mapped_data i; mapped := mapped i; views := v |}.

(** Modelled from the spec: the class declaration (image.h) is missing from
    the sources.  Members that a constructor does not name in its initialiser
    list take their default: the allocation token is the null sentinel, the
    tiling and the aspect mask are zero, the image is not mapped, and the set
    of views is empty. *)
Definition default_memory : VmaAllocation := VK_NULL_HANDLE.
Definition default_tiling : VkImageTiling := VK_IMAGE_TILING_OPTIMAL.
Definition default_subresource : VkImageSubresource :=
  {| aspectMask := 0; mipLevel := 0; arrayLayer := 0 |}.
Definition default_mapped_data : ptr := nullptr.
Definition default_mapped : bool := false.
Definition default_views : gset ptr := ∅.

(** ** Effects *)

Inductive event :=
| EvCreateImage (image_info : VkImageCreateInfo.t)
                (memory_info : VmaAllocationCreateInfo.t)
                (result : VkResult) (h : VkImage) (m : VmaAllocation)
| EvDestroyImage (h : VkImage) (m : VmaAllocation)
| EvMapMemory (m : VmaAllocation) (result : VkResult) (data : ptr)
| EvUnmapMemory (m : VmaAllocation)
| EvLogW (msg : string)
| EvSetImage (view : ptr) (image : ptr).

Inductive failure :=
| runtime_error (what : string)
| VulkanException (result : VkResult) (msg : string)
| assertion_failed (msg : string)
| vk_check_failed (result : VkResult).

Inductive outcome (A : Type) :=
| Returns (a : A)
| Fails (f : failure).
Arguments Returns {A} a.
Arguments Fails {A} f.

(** The memory allocator is an external library with a state of its own;
    its answers are left abstract. *)
Class VmaAllocator := {
  allocator_state : Type;
  vmaCreateImage :
    allocator_state -> VkImageCreateInfo.t -> VmaAllocationCreateInfo.t ->
    VkResult * VkImage * VmaAllocation * allocator_state;
  vmaDestroyImage :
    allocator_state -> VkImage -> VmaAllocation -> allocator_state;
  vmaMapMemory :
    allocator_state -> VmaAllocation -> VkResult * ptr * allocator_state;
  vmaUnmapMemory :
    allocator_state -> VmaAllocation -> allocator_state
}.

Section ImageModel.
Context `{VmaAllocator}.

(** [NDEBUG] compiles the [assert]s away. *)
Variable NDEBUG : bool.

Record World := {
  allocator : allocator_state;
  trace : list event;
  view_image : gmap ptr ptr
}.

Definition M (A : Type) : Type := World -> outcome A * World.

Definition ret {A} (a : A) : M A := fun w => (Returns a, w).

Definition bind {A B} (m : M A) (k : A -> M B) : M B :=
  fun w =>
    match m w with
    | (Returns a, w') => k a w'
    | (Fails f, w') => (Fails f, w')
    end.

Definition fail {A} (f : failure) : M A := fun w => (Fails f, w).

Definition lift {A} (o : outcome A) : M A := fun w => (o, w).

Definition emit (e : event) : M unit :=
  fun w =>
    (Returns tt,
     {| allocator := allocator w; trace := trace w ++ [e];
        view_image := view_image w |}).

Fixpoint for_each {A} (l : list A) (body : A -> M unit) : M unit :=
  match l with
  | [] => ret tt
  | x :: l' => bind (body x) (fun _ => for_each l' body)
  end.

#[local] Notation "x <- m ;; k" := (bind m (fun x => k))
  (at level 100, m at next level, right associativity, only parsing).
#[local] Notation "m ;;; k" := (bind m (fun _ => k))
  (at level 100, right associativity, only parsing).

(** *** External calls *)

Definition call_vmaCreateImage (image_info : VkImageCreateInfo.t)
    (memory_info : VmaAllocationCreateInfo.t)
    : M (VkResult * VkImage * VmaAllocation) :=
  fun w =>
    let '(result, h, m, a) :=
      vmaCreateImage (allocator w) image_info memory_info in
    (Returns (result, h, m),
     {| allocator := a;
        trace := trace w ++ [EvCreateImage image_info memory_info result h m];
        view_image := view_image w |}).

Definition call_vmaDestroyImage (h : VkImage) (m : VmaAllocation) : M unit :=
  fun w =>
    (Returns tt,
     {| allocator := vmaDestroyImage (allocator w) h m;
        trace := trace w ++ [EvDestroyImage h m];
        view_image := view_image w |}).

Definition call_vmaMapMemory (m : VmaAllocation) : M (VkResult * ptr) :=
  fun w =>
    let '(result, data, a) := vmaMapMemory (allocator w) m in
    (Returns (result, data),
     {| allocator := a;
        trace := trace w ++ [EvMapMemory m result data];
        view_image := view_image w |}).

Definition call_vmaUnmapMemory (m : VmaAllocation) : M unit :=
  fun w =>
    (Returns tt,
     {| allocator := vmaUnmapMemory (allocator w) m;
        trace := trace w ++ [EvUnmapMemory m];
        view_image := view_image w |}).

Definition LOGW (msg : string) : M unit := emit (EvLogW msg).

(** Modelled from the spec: the [VK_CHECK] macro is declared outside the
    sources at hand; a status other than success is fatal for the current
    operation and is surfaced through the error channel. *)
Definition VK_CHECK (err : VkResult) : M unit :=
  if negb (err =? 0) then fail (vk_check_failed err) else ret tt.

Definition assert_ (cond : bool) (msg : string) : M unit :=
  if NDEBUG then ret tt
  else if cond then ret tt else fail (assertion_failed msg).

(** Modelled from the spec: [ImageView::set_image] lives in image_view.cpp,
    which is missing; it rebinds the view to a new owning image. *)
Definition ImageView_set_image (view : ptr) (image : ptr) : M unit :=
  fun w =>
    (Returns tt,
     {| allocator := allocator w;
        trace := trace w ++ [EvSetImage view image];
        view_image := <[view := image]> (view_image w) |}).

(** *** find_image_type *)

Definition dim_num (extent : VkExtent3D) : uint32_t :=
  let dim_num := 0 in
  let dim_num :=
    if width extent >=? 1 then uint32_incr dim_num else dim_num in
  let dim_num :=
    if height extent >=? 1 then uint32_incr dim_num else dim_num in
  let dim_num :=
    if depth extent >? 1 then uint32_incr dim_num else dim_num in
  dim_num.

Definition find_image_type (extent : VkExtent3D) : outcome VkImageType :=
  match dim_num extent with
  | 1 => Returns VK_IMAGE_TYPE_1D
  | 2 => Returns VK_IMAGE_TYPE_2D
  | 3 => Returns VK_IMAGE_TYPE_3D
  | _ => Fails (runtime_error "No image type found."%string)
  end.

(** *** Image::Image(Device &, const VkExtent3D &, ...) *)

Definition Image_ctor (device : Device) (extent : VkExtent3D)
    (format : VkFormat) (image_usage : VkImageUsageFlags)
    (memory_usage : VmaMemoryUsage) (sample_count : VkSampleCountFlagBits)
    (mip_levels array_layers : uint32_t) (tiling : VkImageTiling)
    : M Image :=
  type <- lift (find_image_type extent) ;;
  assert_ (mip_levels >? 0) "Image should have at least one level"%string ;;;
  assert_ (array_layers >? 0) "Image should have at least one layer"%string ;;;
  let subresource :=
    {| aspectMask := aspectMask default_subresource;
       mipLevel := mip_levels;
       arrayLayer := array_layers |} in
  let image_info :=
    {| VkImageCreateInfo.sType := VK_STRUCTURE_TYPE_IMAGE_CREATE_INFO;
       VkImageCreateInfo.imageType := type;
       VkImageCreateInfo.format := format;
       VkImageCreateInfo.extent := extent;
       VkImageCreateInfo.mipLevels := mip_levels;
       VkImageCreateInfo.arrayLayers := array_layers;
       VkImageCreateInfo.samples := sample_count;
       VkImageCreateInfo.tiling := tiling;
       VkImageCreateInfo.usage := image_usage |} in
  let memory_info :=
    {| VmaAllocationCreateInfo.usage := memory_usage;
       VmaAllocationCreateInfo.preferredFlags :=
         if negb (Z.land image_usage
                         VK_IMAGE_USAGE_TRANSIENT_ATTACHMENT_BIT =? 0)
         then VK_MEMORY_PROPERTY_LAZILY_ALLOCATED_BIT
         else 0 |} in
  created <- call_vmaCreateImage image_info memory_info ;;
  let '(result, handle, memory) := created in
  if negb (result =? VK_SUCCESS)
  then fail (VulkanException result "Cannot create Image"%string)
  else
    ret {| device := device; handle := handle; memory := memory;
           type := type; extent := extent; format := format;
           sample_count := sample_count; usage := image_usage;
           tiling := tiling; subresource := subresource;
           mapped_data := default_mapped_data; mapped := default_mapped;
           views := default_views |}.

(** *** Image::Image(Device &, VkImage, ...) *)

Definition Image_ctor_handle (device : Device) (handle : VkImage)
    (extent : VkExtent3D) (format : VkFormat)
    (image_usage : VkImageUsageFlags) : M Image :=
  type <- lift (find_image_type extent) ;;
  ret {| device := device; handle := handle; memory := default_memory;
         type := type; extent := extent; format := format;
         sample_count := VK_SAMPLE_COUNT_1_BIT; usage := image_usage;
         tiling := default_tiling;
         subresource :=
           {| aspectMask := aspectMask default_subresource;
              mipLevel := 1; arrayLayer := 1 |};
         mapped_data := default_mapped_data; mapped := default_mapped;
         views := default_views |}.

(** *** Image::Image(Image &&)

    [this] is the address of the object under construction; the result is
    the new object together with what is left of [other].  The initialiser
    list names every member but [views], which therefore starts out with
    its default; the loop then runs over the new object's own [views]. *)

Definition Image_ctor_move (this : ptr) (other : Image)
    : M (Image * Image) :=
  let self :=
    {| device := device other; handle := handle other;
       memory := memory other; type := type other;
       extent := extent other; format := format other;
       sample_count := sample_count other; usage := usage other;
       tiling := tiling other; subresource := subresource other;
       mapped_data := mapped_data other; mapped := mapped other;
       views := default_views |} in
  let other := set_handle VK_NULL_HANDLE other in
  let other := set_memory VK_NULL_HANDLE other in
  let other := set_mapped_data nullptr other in
  let other := set_mapped false other in
  for_each (elements (views self))
           (fun view => ImageView_set_image view this) ;;;
  ret (self, other).

(** *** Image::map, Image::unmap *)

Definition Image_map (img : Image) : M (ptr * Image) :=
  if mapped_data img =? nullptr then
    (if negb (VkImageTiling_eqb (tiling img) VK_IMAGE_TILING_LINEAR)
     then LOGW "Mapping image memory that is not linear"%string
     else ret tt) ;;;
    mapping <- call_vmaMapMemory (memory img) ;;
    let '(result, data) := mapping in
    VK_CHECK result ;;;
    let img := set_mapped_data data img in
    let img := set_mapped true img in
    ret (mapped_data img, img)
  else ret (mapped_data img, img).

Definition Image_unmap (img : Image) : M Image :=
  if mapped img then
    call_vmaUnmapMemory (memory img) ;;;
    let img := set_mapped_data nullptr img in
    let img := set_mapped false img in
    ret img
  else ret img.

(** *** Image::~Image

    The result is the state of the members when the destructor's body
    ends. *)

Definition Image_dtor (img : Image) : M Image :=
  if negb (handle img =? VK_NULL_HANDLE)
     && negb (memory img =? VK_NULL_HANDLE)
  then
    img <- Image_unmap img ;;
    call_vmaDestroyImage (handle img) (memory img) ;;;
    ret img
  else ret img.

(** *** Sequences of calls *)

(** [n] consecutive calls of [map]; the pointers returned, in order. *)
Fixpoint Image_map_n (n : nat) (img : Image) : M (list ptr * Image) :=
  match n with
  | O => ret ([], img)
  | S n' =>
      r <- Image_map img ;;
      rs <- Image_map_n n' (snd r) ;;
      ret (fst r :: fst rs, snd rs)
  end.

Inductive op :=
| OpMap
| OpUnmap
| OpViews (vs : gset ptr).

Definition run_op (o : op) (img : Image) : M Image :=
  match o with
  | OpMap => r <- Image_map img ;; ret (snd r)
  | OpUnmap => Image_unmap img
  | OpViews vs => ret (set_views vs img)
  end.

Fixpoint run_ops (os : list op) (img : Image) : M Image :=
  match os with
  | [] => ret img
  | o :: os' => img' <- run_op o img ;; run_ops os' img'
  end.

(** *** Reachable states

    The states an image object can be in: those the constructors return,
    closed under the member functions, under changes made through
    [get_views], and under being the source or the destination of a move.
    The allocator may be in any state when an operation starts. *)

Inductive reachable : Image -> Prop :=
| reach_ctor dev e f u mu sc ml al t w img w' :
    Image_ctor dev e f u mu sc ml al t w = (Returns img, w') ->
    reachable img
| reach_ctor_handle dev h e f u w img w' :
    Image_ctor_handle dev h e f u w = (Returns img, w') ->
    reachable img
| reach_move_self this other w self other' w' :
    reachable other ->
    Image_ctor_move this other w = (Returns (self, other'), w') ->
    reachable self
| reach_move_other this other w self other' w' :
    reachable other ->
    Image_ctor_move this other w = (Returns (self, other'), w') ->
    reachable other'
| reach_map img w p img' w' :
    reachable img ->
    Image_map img w = (Returns (p, img'), w') ->
    reachable img'
| reach_unmap img w img' w' :
    reachable img ->
    Image_unmap img w = (Returns img', w') ->
    reachable img'
| reach_dtor img w img' w' :
    reachable img ->
    Image_dtor img w = (Returns img', w') ->
    reachable img'
| reach_views img vs :
    reachable img ->
    reachable (set_views vs img).

(** *** Reading the trace *)

Definition World_after (a : allocator_state) (es : list event) (w : World)
    : World :=
  {| allocator := a; trace := trace w ++ es; view_image := view_image w |}.

Fixpoint count_events (p : event -> bool) (t : list event) : nat :=
  match t with
  | [] => O
  | e :: t' => if p e then S (count_events p t') else count_events p t'
  end.

End ImageModel.

Definition is_create_image (e : event) : bool :=
  match e with EvCreateImage _ _ _ _ _ => true | _ => false end.
Definition is_destroy_image (e : event) : bool :=
  match e with EvDestroyImage _ _ => true | _ => false end.
Definition is_map_memory (e : event) : bool :=
  match e with EvMapMemory _ _ _ => true | _ => false end.
Definition is_unmap_memory (e : event) : bool :=
  match e with EvUnmapMemory _ => true | _ => false end.
Definition is_set_image (e : event) : bool :=
  match e with EvSetImage _ _ => true | _ => false end.

(** What [map] logs before it calls the allocator. *)
Definition map_warning (img : Image) : list event :=
  if negb (VkImageTiling_eqb (tiling img) VK_IMAGE_TILING_LINEAR)
  then [EvLogW "Mapping image memory that is not linear"%string]
  else [].

(** The two requests the owning constructor hands to [vmaCreateImage]. *)
Definition ctor_image_info (ty : VkImageType) (e : VkExtent3D) (f : VkFormat)
    (u : VkImageUsageFlags) (sc : VkSampleCountFlagBits)
    (ml al : uint32_t) (t : VkImageTiling) : VkImageCreateInfo.t :=
  {| VkImageCreateInfo.sType := VK_STRUCTURE_TYPE_IMAGE_CREATE_INFO;
     VkImageCreateInfo.imageType := ty;
     VkImageCreateInfo.format := f;
     VkImageCreateInfo.extent := e;
     VkImageCreateInfo.mipLevels := ml;
     VkImageCreateInfo.arrayLayers := al;
     VkImageCreateInfo.samples := sc;
     VkImageCreateInfo.tiling := t;
     VkImageCreateInfo.usage := u |}.

Definition ctor_memory_info (mu : VmaMemoryUsage) (u : VkImageUsageFlags)
    : VmaAllocationCreateInfo.t :=
  {| VmaAllocationCreateInfo.usage := mu;
     VmaAllocationCreateInfo.preferredFlags :=
       if Z.land u VK_IMAGE_USAGE_TRANSIENT_ATTACHMENT_BIT =? 0
       then 0 else VK_MEMORY_PROPERTY_LAZILY_ALLOCATED_BIT |}.

(** The state of the moved-from object. *)
Definition moved_from (other : Image) : Image :=
  set_mapped false
    (set_mapped_data nullptr
       (set_memory VK_NULL_HANDLE (set_handle VK_NULL_HANDLE other))).

(** The error the spec calls [InvalidExtent]. *)
Definition InvalidExtent : failure := runtime_error "No image type found."%string.

(** The spec's counting rule, in its own words: width and height contribute
    when at least 1, depth only when greater than 1. *)
Definition spec_dim_count (w h d : Z) : Z :=
  (if 1 <=? w then 1 else 0) + (if 1 <=? h then 1 else 0)
  + (if 1 <? d then 1 else 0).

(** ** A small allocator to run the model on

    Its state counts the calls made.  [create_status] is the status every
    [vmaCreateImage] answers with; [maps_null] tells whether mapping the null
    allocation token is granted. *)
Definition simple_allocator (create_status : VkResult) (maps_null : bool)
    : VmaAllocator :=
  {| allocator_state := Z;
     vmaCreateImage := fun n _ _ =>
       if create_status =? VK_SUCCESS
       then (VK_SUCCESS, 1000 + n, 2000 + n, n + 1)
       else (create_status, VK_NULL_HANDLE, VK_NULL_HANDLE, n + 1);
     vmaDestroyImage := fun n _ _ => n + 1;
     vmaMapMemory := fun n m =>
       if (m =? VK_NULL_HANDLE) && negb maps_null
       then (-5, nullptr, n + 1)
       else (VK_SUCCESS, 4096 + m, n + 1);
     vmaUnmapMemory := fun n _ => n + 1 |}.

Definition world0 (A : VmaAllocator) (a : @allocator_state A) : @World A :=
  {| allocator := a; trace := []; view_image := ∅ |}.

(** An allocator that grants every request but the mapping of the null
    token, and one that is out of device memory. *)
Definition strict_allocator : VmaAllocator := simple_allocator VK_SUCCESS false.
Definition exhausted_allocator : VmaAllocator := simple_allocator (-2) false.

Definition extent_2d : VkExtent3D :=
  {| width := 1024; height := 1024; depth := 1 |}.
Definition extent_none : VkExtent3D :=
  {| width := 0; height := 0; depth := 0 |}.

(** An owning image, placed at address 100, with two views registered; in
    [world_with_views] both views point to it. *)
Definition image_with_views : Image :=
  {| device := 1; handle := 1000; memory := 2000; type := VK_IMAGE_TYPE_2D;
     extent := extent_2d; format := 37; sample_count := 1; usage := 16;
     tiling := VK_IMAGE_TILING_OPTIMAL;
     subresource := {| aspectMask := 0; mipLevel := 1; arrayLayer := 1 |};
     mapped_data := nullptr; mapped := false;
     views := {[ 501; 502 ]} |}.

Definition world_with_views (A : VmaAllocator) (a : @allocator_state A)
    : @World A :=
  {| allocator := a; trace := [];
     view_image := <[501 := 100]> (<[502 := 100]> ∅) |}.

(** The same image while mapped at address 6096. *)
Definition image_mapped : Image :=
  set_mapped true (set_mapped_data 6096 (set_views ∅ image_with_views)).

(** A swapchain image wrapped by the adopting constructor. *)
Definition image_borrowed : Image :=
  {| device := 1; handle := 77; memory := VK_NULL_HANDLE;
     type := VK_IMAGE_TYPE_2D; extent := extent_2d; format := 44;
     sample_count := 1; usage := 16; tiling := VK_IMAGE_TILING_OPTIMAL;
     subresource := {| aspectMask := 0; mipLevel := 1; arrayLayer := 1 |};
     mapped_data := nullptr; mapped := false; views := ∅ |}.

(** An allocator that keeps to its contract: handles, allocations and mapped
    pointers are never null, and only positive allocation tokens map. *)
Definition careful_allocator : VmaAllocator :=
  {| allocator_state := Z;
     vmaCreateImage := fun n _ _ =>
       (VK_SUCCESS, 1000 + Z.abs n, 2000 + Z.abs n, n + 1);
     vmaDestroyImage := fun n _ _ => n + 1;
     vmaMapMemory := fun n m =>
       if m <=? 0 then (-5, nullptr, n + 1)
       else (VK_SUCCESS, 4096 + m, n + 1);
     vmaUnmapMemory := fun n _ => n + 1 |}.

(** A linear image for host access. *)
Definition image_linear : Image :=
  {| device := 1; handle := 1000; memory := 2000; type := VK_IMAGE_TYPE_2D;
     extent := {| width := 64; height := 64; depth := 1 |}; format := 37;
     sample_count := 1; usage := 1; tiling := VK_IMAGE_TILING_LINEAR;
     subresource := {| aspectMask := 0; mipLevel := 1; arrayLayer := 1 |};
     mapped_data := nullptr; mapped := false; views := ∅ |}.

Definition is_log_warning (e : event) : bool :=
  match e with EvLogW _ => true | _ => false end.

Definition bool_to_nat (b : bool) : nat := if b then 1%nat else 0%nat.

(** * AFBCSample -- samples/performance/afbc/afbc.cpp

    The sample toggles a compression feature at run time by recreating the
    swapchain with or without the storage usage bit.  Calls into the device,
    the render context, the base class and the GUI are recorded in a trace. *)

Module AFBCSample.

Definition VK_IMAGE_USAGE_STORAGE_BIT : Z := 8.
Definition VK_IMAGE_USAGE_COLOR_ATTACHMENT_BIT : Z := 16.

Record t := {
  afbc_enabled : bool;
  afbc_enabled_last_value : bool
}.

Section WithFloat.
Variable float : Type.

Inductive event :=
| EvWaitIdle
| EvUpdateSwapchain (image_usage_flags : gset Z)
| EvVulkanSampleUpdate (delta_time : float)
| EvShowOptionsWindow (lines : Z).

(** *** AFBCSample::recreate_swapchain *)

Definition recreate_swapchain (s : t) (tr : list event) : t * list event :=
  let image_usage_flags : gset Z :=
    {[ VK_IMAGE_USAGE_COLOR_ATTACHMENT_BIT ]} in
  let image_usage_flags :=
    if negb (afbc_enabled s)
    then {[ VK_IMAGE_USAGE_STORAGE_BIT ]} ∪ image_usage_flags
    else image_usage_flags in
  let tr := tr ++ [EvWaitIdle] in
  (s, tr ++ [EvUpdateSwapchain image_usage_flags]).

(** *** AFBCSample::update

    The function ends by calling the base class's [update] on the same
    object.  [VulkanSample::update] is not among the sources at hand: it is
    the parameter [VulkanSample_update], which may do anything to the sample's
    members and to the trace. *)

Definition update
    (VulkanSample_update : float -> t -> list event -> t * list event)
    (delta_time : float) (s : t) (tr : list event) : t * list event :=
  let '(s, tr) :=
    if negb (Bool.eqb (afbc_enabled s) (afbc_enabled_last_value s))
    then
      let '(s, tr) := recreate_swapchain s tr in
      ({| afbc_enabled := afbc_enabled s;
          afbc_enabled_last_value := afbc_enabled s |}, tr)
    else (s, tr) in
  VulkanSample_update delta_time s tr.

(** A base-class update that only leaves its mark in the trace: a frame in
    which nothing touches the sample. *)
Definition quiet_update (delta_time : float) (s : t) (tr : list event)
    : t * list event :=
  (s, tr ++ [EvVulkanSampleUpdate delta_time]).

(** *** AFBCSample::draw_gui

    The options window is handed a body that shows a checkbox bound to
    [afbc_enabled]; [checkbox] is what the GUI does to the flag. *)

Definition draw_gui (checkbox : bool -> bool) (s : t) (tr : list event)
    : t * list event :=
  ({| afbc_enabled := checkbox (afbc_enabled s);
      afbc_enabled_last_value := afbc_enabled_last_value s |},
   tr ++ [EvShowOptionsWindow 1]).

(** *** Frames of the sample: updates and GUI passes in any order *)

Inductive step :=
| StepUpdate (VulkanSample_update : float -> t -> list event -> t * list event)
             (delta_time : float)
| StepDrawGui (checkbox : bool -> bool).

Definition run_step (st : step) (s : t) (tr : list event) : t * list event :=
  match st with
  | StepUpdate base delta_time => update base delta_time s tr
  | StepDrawGui checkbox => draw_gui checkbox s tr
  end.

Fixpoint run (steps : list step) (s : t) (tr : list event)
    : t * list event :=
  match steps with
  | [] => (s, tr)
  | st :: steps' => let '(s', tr') := run_step st s tr in run steps' s' tr'
  end.

(** Whether a swapchain created with these usage flags may be compressed:
    the storage bit rules compression out. *)
Definition flags_allow_afbc (image_usage_flags : gset Z) : bool :=
  negb (bool_decide (VK_IMAGE_USAGE_STORAGE_BIT ∈ image_usage_flags)).

(** The mode of the swapchain after a trace: that of the last
    [update_swapchain], if there was one. *)
Fixpoint swapchain_mode (tr : list event) (current : option bool)
    : option bool :=
  match tr with
  | [] => current
  | EvUpdateSwapchain flags :: tr' =>
      swapchain_mode tr' (Some (flags_allow_afbc flags))
  | _ :: tr' => swapchain_mode tr' current
  end.

Fixpoint count_recreations (tr : list event) : nat :=
  match tr with
  | [] => O
  | EvUpdateSwapchain _ :: tr' => S (count_recreations tr')
  | _ :: tr' => count_recreations tr'
  end.

(** What [update] relies on from the base class's update for the swapchain
    to stay in step: it does not write the remembered value and does not
    change the swapchain's mode.  It may write [afbc_enabled]. *)
Definition keeps_swapchain
    (base : float -> t -> list event -> t * list event) : Prop :=
  forall delta_time s tr,
    afbc_enabled_last_value (fst (base delta_time s tr))
      = afbc_enabled_last_value s
    /\ swapchain_mode (snd (base delta_time s tr)) None
       = swapchain_mode tr None.

(** A base-class update during which the GUI is not touched: it leaves the
    sample as it is and does not recreate the swapchain. *)
Definition no_gui_pass
    (base : float -> t -> list event -> t * list event) : Prop :=
  forall delta_time s tr,
    fst (base delta_time s tr) = s
    /\ count_recreations (snd (base delta_time s tr)) = count_recreations tr.

Definition step_keeps_swapchain (st : step) : Prop :=
  match st with
  | StepUpdate base _ => keeps_swapchain base
  | StepDrawGui _ => True
  end.

End WithFloat.

Arguments EvWaitIdle {float}.
Arguments EvUpdateSwapchain {float} image_usage_flags.
Arguments EvVulkanSampleUpdate {float} delta_time.
Arguments EvShowOptionsWindow {float} lines.
Arguments recreate_swapchain {float} s tr.
Arguments update {float} VulkanSample_update delta_time s tr.
Arguments quiet_update {float} delta_time s tr.
Arguments keeps_swapchain {float} base.
Arguments no_gui_pass {float} base.
Arguments step_keeps_swapchain {float} st.
Arguments draw_gui {float} checkbox s tr.
Arguments StepUpdate {float} VulkanSample_update delta_time.
Arguments StepDrawGui {float} checkbox.
Arguments run_step {float} st s tr.
Arguments run {float} steps s tr.
Arguments swapchain_mode {float} tr current.
Arguments count_recreations {float} tr.

End AFBCSample.

(** The sample right after start-up, with AFBC disabled and the swapchain
    recreated accordingly, and a few frames in which the checkbox is clicked
    twice.  Frame times are in milliseconds. *)
Definition afbc_start : AFBCSample.t :=
  {| AFBCSample.afbc_enabled := false;
     AFBCSample.afbc_enabled_last_value := false |}.

Definition afbc_start_trace : list (AFBCSample.event Z) :=
  [AFBCSample.EvWaitIdle;
   AFBCSample.EvUpdateSwapchain
     {[ AFBCSample.VK_IMAGE_USAGE_STORAGE_BIT;
        AFBCSample.VK_IMAGE_USAGE_COLOR_ATTACHMENT_BIT ]}].

(** A base-class update during which the user clicks the checkbox. *)
Definition clicking_update (delta_time : Z) (s : AFBCSample.t)
    (tr : list (AFBCSample.event Z)) : AFBCSample.t * list (AFBCSample.event Z) :=
  AFBCSample.draw_gui negb s (tr ++ [AFBCSample.EvVulkanSampleUpdate delta_time]).

Definition afbc_frames : list (AFBCSample.step Z) :=
  [AFBCSample.StepUpdate AFBCSample.quiet_update 16;
   AFBCSample.StepUpdate clicking_update 16;
   AFBCSample.StepDrawGui negb;
   AFBCSample.StepUpdate AFBCSample.quiet_update 16;
   AFBCSample.StepUpdate clicking_update 16].

(** ** Properties *)

Ltac unfold_monad :=
  cbv beta delta [bind ret fail lift emit LOGW VK_CHECK assert_
                  call_vmaCreateImage call_vmaDestroyImage
                  call_vmaMapMemory call_vmaUnmapMemory] in *.

Section ImageProofs.
Context `{VmaAllocator}.
Variable NDEBUG : bool.

(** *** Type inference *)

Lemma dim_num_spec w h d :
  dim_num {| width := w; height := h; depth := d |} = spec_dim_count w h d.
Proof.
  unfold dim_num, spec_dim_count, uint32_incr, UINT32_MOD; cbn.
  rewrite !Z.geb_leb, Z.gtb_ltb.
  destruct (1 <=? w), (1 <=? h), (1 <? d); reflexivity.
Qed.

Lemma dim_num_range e : 0 <= dim_num e <= 3.
Proof.
  destruct e as [w h d]. rewrite dim_num_spec. unfold spec_dim_count.
  destruct (1 <=? w), (1 <=? h), (1 <? d); lia.
Qed.

Lemma find_image_type_fails e f :
  find_image_type e = Fails f -> f = InvalidExtent /\ dim_num e = 0.
Proof.
  destruct e as [w h d]. unfold find_image_type.
  rewrite dim_num_spec. unfold spec_dim_count.
  destruct (1 <=? w), (1 <=? h), (1 <? d); cbn; intros Hf;
    try discriminate; injection Hf as <-; split; reflexivity.
Qed.

Lemma find_image_type_outside e :
  dim_num e <> 1 -> dim_num e <> 2 -> dim_num e <> 3 ->
  find_image_type e = Fails InvalidExtent.
Proof.
  intros H1 H2 H3. unfold find_image_type.
  destruct (dim_num e) as [|[[p|p|]|[p|p|]|]|p]; try reflexivity; congruence.
Qed.

(** *** What each operation does, as equations *)

Lemma World_after_nil (w : World) : World_after (allocator w) [] w = w.
Proof. destruct w; unfold World_after; cbn. now rewrite app_nil_r. Qed.

Lemma World_after_after a1 es1 a2 es2 (w : World) :
  World_after a2 es2 (World_after a1 es1 w) = World_after a2 (es1 ++ es2) w.
Proof. unfold World_after; cbn. now rewrite app_assoc. Qed.

Lemma Image_ctor_handle_returns dev h e f u w ty :
  find_image_type e = Returns ty ->
  Image_ctor_handle dev h e f u w =
    (Returns {| device := dev; handle := h; memory := VK_NULL_HANDLE;
                type := ty; extent := e; format := f;
                sample_count := VK_SAMPLE_COUNT_1_BIT; usage := u;
                tiling := VK_IMAGE_TILING_OPTIMAL;
                subresource :=
                  {| aspectMask := 0; mipLevel := 1; arrayLayer := 1 |};
                mapped_data := nullptr; mapped := false; views := ∅ |},
     w).
Proof. intros Hty. unfold Image_ctor_handle. unfold_monad. now rewrite Hty. Qed.

Lemma Image_ctor_handle_fails dev h e f u w err :
  find_image_type e = Fails err ->
  Image_ctor_handle dev h e f u w = (Fails err, w).
Proof. intros Hty. unfold Image_ctor_handle. unfold_monad. now rewrite Hty. Qed.

Lemma Image_ctor_fails_extent dev e f u mu sc ml al t w err :
  find_image_type e = Fails err ->
  Image_ctor NDEBUG dev e f u mu sc ml al t w = (Fails err, w).
Proof. intros Hty. unfold Image_ctor. unfold_monad. now rewrite Hty. Qed.

Lemma Image_unmap_unmapped img w :
  mapped img = false -> Image_unmap img w = (Returns img, w).
Proof. intros Hm. unfold Image_unmap. now rewrite Hm. Qed.

Lemma Image_unmap_mapped img w :
  mapped img = true ->
  Image_unmap img w =
    (Returns (set_mapped false (set_mapped_data nullptr img)),
     World_after (vmaUnmapMemory (allocator w) (memory img))
                 [EvUnmapMemory (memory img)] w).
Proof. intros Hm. unfold Image_unmap. now rewrite Hm. Qed.

Lemma Image_dtor_no_release img w :
  handle img = VK_NULL_HANDLE \/ memory img = VK_NULL_HANDLE ->
  Image_dtor img w = (Returns img, w).
Proof.
  intros Hnull. unfold Image_dtor.
  destruct Hnull as [-> | ->]; cbn; [reflexivity|].
  now rewrite andb_false_r.
Qed.

Lemma Image_dtor_release img w :
  handle img <> VK_NULL_HANDLE -> memory img <> VK_NULL_HANDLE ->
  Image_dtor img w =
    if mapped img
    then (Returns (set_mapped false (set_mapped_data nullptr img)),
          World_after
            (vmaDestroyImage (vmaUnmapMemory (allocator w) (memory img))
                             (handle img) (memory img))
            [EvUnmapMemory (memory img);
             EvDestroyImage (handle img) (memory img)] w)
    else (Returns img,
          World_after
            (vmaDestroyImage (allocator w) (handle img) (memory img))
            [EvDestroyImage (handle img) (memory img)] w).
Proof.
  intros Hh Hm. unfold Image_dtor.
  apply Z.eqb_neq in Hh, Hm. rewrite Hh, Hm. cbn [negb andb].
  unfold bind at 1. destruct (mapped img) eqn:Hmapped.
  - rewrite Image_unmap_mapped by assumption.
    unfold_monad. cbn. unfold World_after; cbn.
    now rewrite <- app_assoc.
  - rewrite Image_unmap_unmapped by assumption.
    unfold_monad. reflexivity.
Qed.

Lemma Image_map_mapped img w :
  mapped_data img <> nullptr ->
  Image_map img w = (Returns (mapped_data img, img), w).
Proof.
  intros Hp. unfold Image_map. apply Z.eqb_neq in Hp. now rewrite Hp.
Qed.

Lemma Image_map_unmapped img w r p a :
  mapped_data img = nullptr ->
  vmaMapMemory (allocator w) (memory img) = (r, p, a) ->
  Image_map img w =
    (if r =? VK_SUCCESS
     then Returns (p, set_mapped true (set_mapped_data p img))
     else Fails (vk_check_failed r),
     World_after a (map_warning img ++ [EvMapMemory (memory img) r p]) w).
Proof.
  intros Hp Hcall. unfold Image_map, map_warning. rewrite Hp. cbn [Z.eqb nullptr].
  unfold_monad.
  destruct (negb (VkImageTiling_eqb (tiling img) VK_IMAGE_TILING_LINEAR));
    cbn; rewrite Hcall; unfold World_after, VK_SUCCESS; cbn;
    destruct (r =? 0) eqn:Hr; cbn; rewrite <- ?app_assoc;
    reflexivity.
Qed.

Lemma Image_ctor_calls_allocator dev e f u mu sc ml al t w ty r h m a :
  find_image_type e = Returns ty ->
  NDEBUG = true \/ (1 <= ml /\ 1 <= al) ->
  vmaCreateImage (allocator w) (ctor_image_info ty e f u sc ml al t)
                 (ctor_memory_info mu u) = (r, h, m, a) ->
  Image_ctor NDEBUG dev e f u mu sc ml al t w =
    (if r =? VK_SUCCESS
     then Returns {| device := dev; handle := h; memory := m; type := ty;
                     extent := e; format := f; sample_count := sc;
                     usage := u; tiling := t;
                     subresource :=
                       {| aspectMask := 0; mipLevel := ml;
                          arrayLayer := al |};
                     mapped_data := nullptr; mapped := false; views := ∅ |}
     else Fails (VulkanException r "Cannot create Image"),
     World_after a [EvCreateImage (ctor_image_info ty e f u sc ml al t)
                                  (ctor_memory_info mu u) r h m] w).
Proof.
  intros Hty Hassert Hcall. unfold Image_ctor. unfold_monad.
  rewrite Hty.
  assert (Hpass : (if NDEBUG then true else (ml >? 0) && (al >? 0)) = true).
  { destruct Hassert as [-> | [Hml Hal]]; [reflexivity|].
    destruct NDEBUG; [reflexivity|].
    rewrite !Z.gtb_ltb. apply andb_true_intro.
    split; apply Z.ltb_lt; lia. }
  unfold ctor_image_info, ctor_memory_info in *.
  destruct NDEBUG.
  - destruct (Z.land u VK_IMAGE_USAGE_TRANSIENT_ATTACHMENT_BIT =? 0);
      cbn [negb] in *; rewrite Hcall; unfold VK_SUCCESS;
      destruct (r =? 0); reflexivity.
  - apply andb_prop in Hpass as [-> ->].
    destruct (Z.land u VK_IMAGE_USAGE_TRANSIENT_ATTACHMENT_BIT =? 0);
      cbn [negb] in *; rewrite Hcall; unfold VK_SUCCESS;
      destruct (r =? 0); reflexivity.
Qed.

Lemma Image_ctor_assert_levels dev e f u mu sc ml al t w ty :
  find_image_type e = Returns ty ->
  NDEBUG = false ->
  ml < 1 ->
  Image_ctor NDEBUG dev e f u mu sc ml al t w =
    (Fails (assertion_failed "Image should have at least one level"), w).
Proof.
  intros Hty -> Hml. unfold Image_ctor. unfold_monad. rewrite Hty.
  rewrite Z.gtb_ltb.
  replace (0 <? ml) with false by (symmetry; apply Z.ltb_ge; lia).
  reflexivity.
Qed.

Lemma Image_ctor_assert_layers dev e f u mu sc ml al t w ty :
  find_image_type e = Returns ty ->
  NDEBUG = false ->
  1 <= ml -> al < 1 ->
  Image_ctor NDEBUG dev e f u mu sc ml al t w =
    (Fails (assertion_failed "Image should have at least one layer"), w).
Proof.
  intros Hty -> Hml Hal. unfold Image_ctor. unfold_monad. rewrite Hty.
  rewrite !Z.gtb_ltb.
  replace (0 <? ml) with true by (symmetry; apply Z.ltb_lt; lia).
  replace (0 <? al) with false by (symmetry; apply Z.ltb_ge; lia).
  reflexivity.
Qed.

Lemma Image_ctor_move_eq this other w :
  Image_ctor_move this other w =
    (Returns (set_views ∅ other, moved_from other), w).
Proof. reflexivity. Qed.

Lemma Image_map_inv img w p img' w' :
  Image_map img w = (Returns (p, img'), w') ->
  (mapped_data img <> nullptr /\ p = mapped_data img /\ img' = img /\ w' = w)
  \/ (mapped_data img = nullptr /\
      exists a,
        vmaMapMemory (allocator w) (memory img) = (VK_SUCCESS, p, a) /\
        img' = set_mapped true (set_mapped_data p img) /\
        w' = World_after a (map_warning img
                            ++ [EvMapMemory (memory img) VK_SUCCESS p]) w).
Proof.
  destruct (Z.eq_dec (mapped_data img) nullptr) as [Hnull | Hset].
  - destruct (vmaMapMemory (allocator w) (memory img)) as [[r q] a] eqn:Hcall.
    rewrite (Image_map_unmapped _ _ _ _ _ Hnull Hcall).
    destruct (r =? VK_SUCCESS) eqn:Hr; [|discriminate].
    apply Z.eqb_eq in Hr. subst r. intros [= <- <- <-].
    right. split; [assumption|]. exists a. repeat split; reflexivity.
  - rewrite Image_map_mapped by assumption. intros [= <- <- <-].
    left. repeat split; try reflexivity; assumption.
Qed.

Lemma Image_unmap_eq img w :
  Image_unmap img w =
    if mapped img
    then (Returns (set_mapped false (set_mapped_data nullptr img)),
          World_after (vmaUnmapMemory (allocator w) (memory img))
                      [EvUnmapMemory (memory img)] w)
    else (Returns img, w).
Proof.
  destruct (mapped img) eqn:Hm.
  - now apply Image_unmap_mapped.
  - now apply Image_unmap_unmapped.
Qed.

Lemma count_events_app p t1 t2 :
  count_events p (t1 ++ t2) = (count_events p t1 + count_events p t2)%nat.
Proof.
  induction t1 as [|e t1 IH]; cbn; [reflexivity|].
  destruct (p e); cbn; now rewrite IH.
Qed.

Lemma count_map_warning p img :
  (forall msg, p (EvLogW msg) = false) ->
  count_events p (map_warning img) = O.
Proof.
  intros Hp. unfold map_warning.
  destruct (negb _); cbn; [now rewrite Hp|reflexivity].
Qed.

(** [map], [unmap] and changes to the set of views leave the handle and the
    allocation token alone, and neither create nor destroy an image. *)
Lemma run_op_frame o img w img' w' :
  run_op o img w = (Returns img', w') ->
  handle img' = handle img /\ memory img' = memory img /\
  count_events is_create_image (trace w')
    = count_events is_create_image (trace w) /\
  count_events is_destroy_image (trace w')
    = count_events is_destroy_image (trace w).
Proof.
  destruct o as [| |vs]; cbn [run_op].
  - unfold bind, ret.
    destruct (Image_map img w) as [[[p i1]|f] w1] eqn:Hmap; [|discriminate].
    cbn. intros [= <- <-].
    apply Image_map_inv in Hmap
      as [(_ & _ & -> & ->) | (_ & a & _ & -> & ->)];
      [repeat split; reflexivity|].
    repeat split; cbn [World_after trace];
      rewrite !count_events_app, count_map_warning by reflexivity;
      cbn; lia.
  - rewrite Image_unmap_eq. destruct (mapped img); intros [= <- <-].
    + repeat split; cbn [World_after trace];
        rewrite !count_events_app; cbn; lia.
    + repeat split; reflexivity.
  - intros [= <- <-]. repeat split; reflexivity.
Qed.

Lemma run_ops_frame os : forall img w img' w',
  run_ops os img w = (Returns img', w') ->
  handle img' = handle img /\ memory img' = memory img /\
  count_events is_create_image (trace w')
    = count_events is_create_image (trace w) /\
  count_events is_destroy_image (trace w')
    = count_events is_destroy_image (trace w).
Proof.
  induction os as [|o os IH]; intros img w img' w'; cbn [run_ops].
  - intros [= <- <-]. repeat split; reflexivity.
  - unfold bind at 1.
    destruct (run_op o img w) as [[i1|f] w1] eqn:Hop; [|discriminate].
    intros Hrest.
    apply run_op_frame in Hop as (Hh & Hm & Hc & Hd).
    apply IH in Hrest as (Hh' & Hm' & Hc' & Hd').
    repeat split; congruence.
Qed.

(** *** Claims about type inference and adopting construction *)

(** C5. The type-inference helper counts a dimension for width >= 1, one for
    height >= 1 and one for depth > 1, maps a count of 1, 2, 3 to 1D, 2D,
    3D and fails with InvalidExtent otherwise; so (W,0,0) is 1D, (W,H,1) is
    2D, (W,H,D) with D > 1 is 3D, and (0,0,0) fails. *)
Theorem find_image_type_rule (w h d : Z) :
  dim_num {| width := w; height := h; depth := d |} = spec_dim_count w h d
  /\ find_image_type {| width := w; height := h; depth := d |} =
       match spec_dim_count w h d with
       | 1 => Returns VK_IMAGE_TYPE_1D
       | 2 => Returns VK_IMAGE_TYPE_2D
       | 3 => Returns VK_IMAGE_TYPE_3D
       | _ => Fails InvalidExtent
       end
  /\ (1 <= w ->
      find_image_type {| width := w; height := 0; depth := 0 |}
        = Returns VK_IMAGE_TYPE_1D)
  /\ (1 <= w -> 1 <= h ->
      find_image_type {| width := w; height := h; depth := 1 |}
        = Returns VK_IMAGE_TYPE_2D)
  /\ (1 <= w -> 1 <= h -> 1 < d ->
      find_image_type {| width := w; height := h; depth := d |}
        = Returns VK_IMAGE_TYPE_3D)
  /\ find_image_type {| width := 0; height := 0; depth := 0 |}
       = Fails InvalidExtent.
Proof.
  split; [apply dim_num_spec|].
  split; [unfold find_image_type; now rewrite dim_num_spec|].
  repeat split.
  - intros Hw. unfold find_image_type. rewrite dim_num_spec.
    unfold spec_dim_count.
    replace (1 <=? w) with true by (symmetry; apply Z.leb_le; lia).
    reflexivity.
  - intros Hw Hh. unfold find_image_type. rewrite dim_num_spec.
    unfold spec_dim_count.
    replace (1 <=? w) with true by (symmetry; apply Z.leb_le; lia).
    replace (1 <=? h) with true by (symmetry; apply Z.leb_le; lia).
    reflexivity.
  - intros Hw Hh Hd. unfold find_image_type. rewrite dim_num_spec.
    unfold spec_dim_count.
    replace (1 <=? w) with true by (symmetry; apply Z.leb_le; lia).
    replace (1 <=? h) with true by (symmetry; apply Z.leb_le; lia).
    replace (1 <? d) with true by (symmetry; apply Z.ltb_lt; lia).
    reflexivity.
Qed.

(** C10. Adopting construction applies the type-inference rule to its
    extent: when the dimension count is outside 1..3, as for (0,0,0), it
    fails with the same InvalidExtent error as owning construction and
    calls nothing; for a classifiable extent the adopted image's type is the
    inferred one. *)
Theorem Image_ctor_handle_infers_type dev h e f u w :
  (dim_num e <> 1 -> dim_num e <> 2 -> dim_num e <> 3 ->
   Image_ctor_handle dev h e f u w = (Fails InvalidExtent, w) /\
   forall mu sc ml al t,
     Image_ctor NDEBUG dev e f u mu sc ml al t w = (Fails InvalidExtent, w))
  /\ Image_ctor_handle dev h extent_none f u w = (Fails InvalidExtent, w)
  /\ (forall ty,
        find_image_type e = Returns ty ->
        exists img,
          Image_ctor_handle dev h e f u w = (Returns img, w) /\
          type img = ty).
Proof.
  split; [|split].
  - intros H1 H2 H3.
    pose proof (find_image_type_outside e H1 H2 H3) as Hfail.
    split; [now apply Image_ctor_handle_fails|].
    intros mu sc ml al t. now apply Image_ctor_fails_extent.
  - now apply Image_ctor_handle_fails.
  - intros ty Hty. eexists. split.
    + apply Image_ctor_handle_returns. exact Hty.
    + reflexivity.
Qed.

(** C9. Adopting construction records the given handle, leaves the
    allocation token null, sets the sample count to single-sample and the
    subresource to (1,1), and calls no create_image; destroying the borrowed
    resource, also after any sequence of map, unmap and view-set changes,
    calls no destroy_image. *)
Theorem Image_ctor_handle_borrowed dev h e f u w ty :
  find_image_type e = Returns ty ->
  exists img,
    Image_ctor_handle dev h e f u w = (Returns img, w) /\
    handle img = h /\ memory img = VK_NULL_HANDLE /\
    sample_count img = VK_SAMPLE_COUNT_1_BIT /\
    mipLevel (subresource img) = 1 /\ arrayLayer (subresource img) = 1 /\
    (forall w1, Image_dtor img w1 = (Returns img, w1)) /\
    (forall os w1 img' w2,
       run_ops os img w1 = (Returns img', w2) ->
       Image_dtor img' w2 = (Returns img', w2) /\
       count_events is_create_image (trace w2)
         = count_events is_create_image (trace w1) /\
       count_events is_destroy_image (trace w2)
         = count_events is_destroy_image (trace w1)).
Proof.
  intros Hty. eexists.
  split; [apply Image_ctor_handle_returns; exact Hty|].
  cbn [handle memory sample_count subresource mipLevel arrayLayer].
  do 5 (split; [reflexivity|]). split.
  - intros w1. apply Image_dtor_no_release. now right.
  - intros os w1 img' w2 Hrun.
    apply run_ops_frame in Hrun as (_ & Hm & Hc & Hd). cbn in Hm.
    split; [|split; assumption].
    apply Image_dtor_no_release. now right.
Qed.

(** *** Claims about owning construction *)

Lemma Image_ctor_inv dev e f u mu sc ml al t w img w' :
  Image_ctor NDEBUG dev e f u mu sc ml al t w = (Returns img, w') ->
  exists ty h m a,
    find_image_type e = Returns ty /\
    vmaCreateImage (allocator w) (ctor_image_info ty e f u sc ml al t)
                   (ctor_memory_info mu u) = (VK_SUCCESS, h, m, a) /\
    img = {| device := dev; handle := h; memory := m; type := ty;
             extent := e; format := f; sample_count := sc; usage := u;
             tiling := t;
             subresource :=
               {| aspectMask := 0; mipLevel := ml; arrayLayer := al |};
             mapped_data := nullptr; mapped := false; views := ∅ |} /\
    w' = World_after a [EvCreateImage (ctor_image_info ty e f u sc ml al t)
                                      (ctor_memory_info mu u)
                                      VK_SUCCESS h m] w.
Proof.
  destruct (find_image_type e) as [ty|err] eqn:Hty;
    [|rewrite (Image_ctor_fails_extent _ _ _ _ _ _ _ _ _ _ _ Hty);
      discriminate].
  assert (Hcases : NDEBUG = true \/ (1 <= ml /\ 1 <= al)
                   \/ (NDEBUG = false /\ ml < 1)
                   \/ (NDEBUG = false /\ 1 <= ml /\ al < 1))
    by (destruct NDEBUG; [now left|right; lia]).
  destruct (vmaCreateImage (allocator w) (ctor_image_info ty e f u sc ml al t)
                           (ctor_memory_info mu u))
    as [[[r h] m] a] eqn:Hcall.
  destruct Hcases as [Hok | [Hok | [[Hn Hml] | (Hn & Hml & Hal)]]].
  - rewrite (Image_ctor_calls_allocator _ _ _ _ _ _ _ _ _ _ _ _ _ _ _
               Hty (or_introl Hok) Hcall).
    destruct (r =? VK_SUCCESS) eqn:Hr; [|discriminate].
    apply Z.eqb_eq in Hr. subst r. intros [= <- <-].
    exists ty, h, m, a. repeat split; assumption.
  - rewrite (Image_ctor_calls_allocator _ _ _ _ _ _ _ _ _ _ _ _ _ _ _
               Hty (or_intror Hok) Hcall).
    destruct (r =? VK_SUCCESS) eqn:Hr; [|discriminate].
    apply Z.eqb_eq in Hr. subst r. intros [= <- <-].
    exists ty, h, m, a. repeat split; assumption.
  - rewrite (Image_ctor_assert_levels _ _ _ _ _ _ _ _ _ _ _ Hty Hn Hml).
    discriminate.
  - rewrite (Image_ctor_assert_layers _ _ _ _ _ _ _ _ _ _ _ Hty Hn Hml Hal).
    discriminate.
Qed.

(** C7. Owning construction fails as follows: an extent that does not
    classify fails with InvalidExtent; with assertions compiled in,
    mip_levels < 1 or array_layers < 1 trips an assertion before the
    allocator is called; and a create_image status other than success is
    thrown to the caller in an exception carrying that status. *)
Theorem Image_ctor_failures dev e f u mu sc ml al t w :
  (forall err,
     find_image_type e = Fails err ->
     err = InvalidExtent /\
     Image_ctor NDEBUG dev e f u mu sc ml al t w = (Fails InvalidExtent, w))
  /\ (forall ty,
        find_image_type e = Returns ty ->
        NDEBUG = false ->
        ml < 1 \/ al < 1 ->
        exists msg,
          Image_ctor NDEBUG dev e f u mu sc ml al t w
            = (Fails (assertion_failed msg), w))
  /\ (forall ty r h m a,
        find_image_type e = Returns ty ->
        NDEBUG = true \/ (1 <= ml /\ 1 <= al) ->
        vmaCreateImage (allocator w) (ctor_image_info ty e f u sc ml al t)
                       (ctor_memory_info mu u) = (r, h, m, a) ->
        r <> VK_SUCCESS ->
        Image_ctor NDEBUG dev e f u mu sc ml al t w =
          (Fails (VulkanException r "Cannot create Image"),
           World_after a
             [EvCreateImage (ctor_image_info ty e f u sc ml al t)
                            (ctor_memory_info mu u) r h m] w)).
Proof.
  split; [|split].
  - intros err Hty.
    destruct (find_image_type_fails _ _ Hty) as [-> _].
    split; [reflexivity|]. now apply Image_ctor_fails_extent.
  - intros ty Hty Hn Hbad.
    destruct (Z_lt_le_dec ml 1) as [Hml | Hml].
    + eexists. now apply (Image_ctor_assert_levels _ _ _ _ _ _ _ _ _ _ _ Hty).
    + destruct Hbad as [Hbad | Hal]; [lia|].
      eexists.
      now apply (Image_ctor_assert_layers _ _ _ _ _ _ _ _ _ _ _ Hty).
  - intros ty r h m a Hty Hok Hcall Hr.
    rewrite (Image_ctor_calls_allocator _ _ _ _ _ _ _ _ _ _ _ _ _ _ _
               Hty Hok Hcall).
    apply Z.eqb_neq in Hr. now rewrite Hr.
Qed.

(** C8. The memory_info that owning construction passes to create_image has
    the lazily-allocated bit in its preferred flags exactly when the usage
    flags include the transient-attachment bit; for every other usage the
    preferred flags are empty. *)
Theorem Image_ctor_lazily_allocated dev e f u mu sc ml al t w ty :
  find_image_type e = Returns ty ->
  NDEBUG = true \/ (1 <= ml /\ 1 <= al) ->
  exists o image_info memory_info r h m a,
    Image_ctor NDEBUG dev e f u mu sc ml al t w =
      (o, World_after a [EvCreateImage image_info memory_info r h m] w) /\
    vmaCreateImage (allocator w) image_info memory_info = (r, h, m, a) /\
    VmaAllocationCreateInfo.usage memory_info = mu /\
    (Z.land (VmaAllocationCreateInfo.preferredFlags memory_info)
            VK_MEMORY_PROPERTY_LAZILY_ALLOCATED_BIT
       = VK_MEMORY_PROPERTY_LAZILY_ALLOCATED_BIT
     <-> Z.land u VK_IMAGE_USAGE_TRANSIENT_ATTACHMENT_BIT <> 0) /\
    (Z.land u VK_IMAGE_USAGE_TRANSIENT_ATTACHMENT_BIT = 0 ->
     VmaAllocationCreateInfo.preferredFlags memory_info = 0).
Proof.
  intros Hty Hok.
  destruct (vmaCreateImage (allocator w) (ctor_image_info ty e f u sc ml al t)
                           (ctor_memory_info mu u))
    as [[[r h] m] a] eqn:Hcall.
  eexists _, (ctor_image_info ty e f u sc ml al t), (ctor_memory_info mu u),
          r, h, m, a.
  split; [exact (Image_ctor_calls_allocator _ _ _ _ _ _ _ _ _ _ _ _ _ _ _
                   Hty Hok Hcall)|].
  split; [exact Hcall|]. split; [reflexivity|].
  unfold ctor_memory_info; cbn [VmaAllocationCreateInfo.preferredFlags].
  destruct (Z.land u VK_IMAGE_USAGE_TRANSIENT_ATTACHMENT_BIT =? 0) eqn:Hbit.
  - apply Z.eqb_eq in Hbit. split; [|reflexivity].
    split; [discriminate|congruence].
  - apply Z.eqb_neq in Hbit. split; [|congruence].
    split; [intros _; exact Hbit|reflexivity].
Qed.

(** *** Claims about map, unmap and destruction *)

Lemma Image_map_n_mapped n : forall img w,
  mapped_data img <> nullptr ->
  Image_map_n n img w = (Returns (repeat (mapped_data img) n, img), w).
Proof.
  induction n as [|n IH]; intros img w Hp; cbn [Image_map_n repeat].
  - reflexivity.
  - unfold bind at 1. rewrite Image_map_mapped by assumption.
    cbn [fst snd]. unfold bind at 1. rewrite IH by assumption.
    reflexivity.
Qed.

(** C6. [map] is idempotent: starting from an unmapped image for which the
    allocator grants a mapping at [p], any number of consecutive calls
    return [p] and together call map_memory exactly once; every further
    call leaves image and world untouched.  Whether the allocator is called
    is decided by [mapped_data] alone, and a single [unmap] (no counter)
    makes the next [map] call the allocator again. *)
Theorem Image_map_idempotent (n : nat) img w p a :
  mapped_data img = nullptr ->
  vmaMapMemory (allocator w) (memory img) = (VK_SUCCESS, p, a) ->
  p <> nullptr ->
  let img' := set_mapped true (set_mapped_data p img) in
  let w' := World_after a (map_warning img
                           ++ [EvMapMemory (memory img) VK_SUCCESS p]) w in
  Image_map_n (S n) img w = (Returns (repeat p (S n), img'), w')
  /\ count_events is_map_memory (trace w')
       = S (count_events is_map_memory (trace w))
  /\ (forall k w1, Image_map_n k img' w1 = (Returns (repeat p k, img'), w1))
  /\ (forall img1 w1,
        mapped_data img1 <> nullptr ->
        Image_map img1 w1 = (Returns (mapped_data img1, img1), w1))
  /\ (exists img2 w2,
        Image_unmap img' w' = (Returns img2, w2) /\
        mapped_data img2 = nullptr /\ mapped img2 = false /\
        memory img2 = memory img /\
        forall r q a2,
          vmaMapMemory (allocator w2) (memory img2) = (r, q, a2) ->
          snd (Image_map img2 w2) =
            World_after a2 (map_warning img2
                            ++ [EvMapMemory (memory img2) r q]) w2).
Proof.
  intros Hnull Hcall Hp img' w'.
  assert (Hlater : forall k w1,
             Image_map_n k img' w1 = (Returns (repeat p k, img'), w1))
    by (intros k w1; apply (Image_map_n_mapped k img' w1); exact Hp).
  split; [|split; [|split; [exact Hlater|split]]].
  - cbn [Image_map_n]. unfold bind at 1.
    rewrite (Image_map_unmapped _ _ _ _ _ Hnull Hcall). cbn [Z.eqb VK_SUCCESS].
    cbn [fst snd]. unfold bind at 1. fold img'. fold w'. rewrite Hlater.
    reflexivity.
  - subst w'. cbn [World_after trace].
    rewrite !count_events_app, count_map_warning by reflexivity.
    cbn. lia.
  - intros img1 w1. apply Image_map_mapped.
  - rewrite Image_unmap_mapped by reflexivity.
    eexists _, _. split; [reflexivity|].
    do 3 (split; [reflexivity|]).
    intros r q a2 Hcall2.
    rewrite (Image_map_unmapped
               (set_mapped false (set_mapped_data nullptr img'))
               _ _ _ _ eq_refl Hcall2).
    reflexivity.
Qed.

(** C3. Destruction releases nothing when the handle or the allocation is
    the null sentinel: image and world stay as they are.  Otherwise it unmaps
    first if the image is mapped (the allocator's unmap_memory is applied and
    the mapping cleared) and then issues exactly one destroy_image, applied
    to the allocator after the unmap, for the image's handle and allocation,
    which are the pair the allocator returned at construction whatever was
    mapped, unmapped or registered in between. *)
Theorem Image_dtor_protocol img w :
  (handle img = VK_NULL_HANDLE \/ memory img = VK_NULL_HANDLE ->
   Image_dtor img w = (Returns img, w))
  /\ (handle img <> VK_NULL_HANDLE -> memory img <> VK_NULL_HANDLE ->
      Image_dtor img w =
        (Returns (if mapped img
                  then set_mapped false (set_mapped_data nullptr img)
                  else img),
         World_after
           (vmaDestroyImage
              (if mapped img
               then vmaUnmapMemory (allocator w) (memory img)
               else allocator w)
              (handle img) (memory img))
           ((if mapped img then [EvUnmapMemory (memory img)] else [])
            ++ [EvDestroyImage (handle img) (memory img)]) w) /\
      count_events is_destroy_image (trace (snd (Image_dtor img w)))
        = S (count_events is_destroy_image (trace w)) /\
      count_events is_unmap_memory (trace (snd (Image_dtor img w)))
        = (count_events is_unmap_memory (trace w)
           + bool_to_nat (mapped img))%nat)
  /\ (forall dev e f u mu sc ml al t w0 img0 w1 os,
        Image_ctor NDEBUG dev e f u mu sc ml al t w0 = (Returns img0, w1) ->
        run_ops os img0 w1 = (Returns img, w) ->
        exists image_info memory_info a0,
          vmaCreateImage (allocator w0) image_info memory_info
            = (VK_SUCCESS, handle img, memory img, a0) /\
          trace w1 = trace w0 ++ [EvCreateImage image_info memory_info
                                    VK_SUCCESS (handle img) (memory img)]).
Proof.
  split; [apply Image_dtor_no_release|split].
  - intros Hh Hm. rewrite (Image_dtor_release _ _ Hh Hm).
    destruct (mapped img) eqn:Hmapped.
    + split; [reflexivity|].
      cbn [snd World_after trace bool_to_nat].
      rewrite !count_events_app. cbn. split; lia.
    + split; [reflexivity|].
      cbn [snd World_after trace bool_to_nat].
      rewrite !count_events_app. cbn. split; lia.
  - intros dev e f u mu sc ml al t w0 img0 w1 os Hctor Hrun.
    apply Image_ctor_inv in Hctor as (ty & h & m & a & _ & Hcall & -> & ->).
    apply run_ops_frame in Hrun as (-> & -> & _ & _).
    eexists _, _, a. split; [exact Hcall|reflexivity].
Qed.

(** *** Move construction *)

(** The destination's set of views is the default, so the loop over it
    has nothing to rebind: the world is as before. *)
Lemma Image_ctor_move_world this other w :
  snd (Image_ctor_move this other w) = w.
Proof. reflexivity. Qed.

(** What move construction does transfer, and what it leaves in the source. *)
Lemma Image_ctor_move_fields this other w :
  exists self other',
    Image_ctor_move this other w = (Returns (self, other'), w) /\
    device self = device other /\ handle self = handle other /\
    memory self = memory other /\ type self = type other /\
    extent self = extent other /\ format self = format other /\
    sample_count self = sample_count other /\ usage self = usage other /\
    tiling self = tiling other /\ subresource self = subresource other /\
    mapped_data self = mapped_data other /\ mapped self = mapped other /\
    views self = ∅ /\
    handle other' = VK_NULL_HANDLE /\ memory other' = VK_NULL_HANDLE /\
    mapped_data other' = nullptr /\ mapped other' = false /\
    device other' = device other /\ type other' = type other /\
    extent other' = extent other /\ format other' = format other /\
    sample_count other' = sample_count other /\
    usage other' = usage other /\ tiling other' = tiling other /\
    subresource other' = subresource other /\ views other' = views other.
Proof.
  eexists _, _. split; [apply Image_ctor_move_eq|].
  repeat split.
Qed.

(** *** The invariant mapped => allocation != null *)

(** C2. The invariant mapped => allocation != null holds in every reachable
    state of an image: no sequence of owning or adopting construction, map,
    unmap, move, destruction and view-set changes yields an image that is
    mapped while its allocation is the null sentinel; so a borrowed image,
    whose allocation is null, is never mapped.  [map] hands the token to the
    allocator, whose contract is that the null token is never mapped. *)
Theorem mapped_implies_allocation :
  (forall a m r p a',
     vmaMapMemory a m = (r, p, a') -> r = VK_SUCCESS -> m <> VK_NULL_HANDLE) ->
  forall img,
    reachable NDEBUG img -> mapped img = true -> memory img <> VK_NULL_HANDLE.
Proof.
  intros Halloc img Hreach.
  induction Hreach as
    [dev e f u mu sc ml al t w img w' Hctor
    |dev h e f u w img w' Hctor
    |this other w self other' w' Hreach IH Hmove
    |this other w self other' w' Hreach IH Hmove
    |img w p img' w' Hreach IH Hmap
    |img w img' w' Hreach IH Hunmap
    |img w img' w' Hreach IH Hdtor
    |img vs Hreach IH].
  - apply Image_ctor_inv in Hctor as (ty & h & m & a & _ & _ & -> & _).
    discriminate.
  - destruct (find_image_type e) as [ty|err] eqn:Hty.
    + rewrite (Image_ctor_handle_returns _ _ _ _ _ _ _ Hty) in Hctor.
      injection Hctor as <- _. discriminate.
    + rewrite (Image_ctor_handle_fails _ _ _ _ _ _ _ Hty) in Hctor.
      discriminate.
  - rewrite Image_ctor_move_eq in Hmove. injection Hmove as <- _ _.
    exact IH.
  - rewrite Image_ctor_move_eq in Hmove. injection Hmove as _ <- _.
    discriminate.
  - apply Image_map_inv in Hmap
      as [(_ & _ & -> & _) | (_ & a & Hcall & -> & _)]; [exact IH|].
    intros _. cbn. exact (Halloc _ _ _ _ _ Hcall eq_refl).
  - rewrite Image_unmap_eq in Hunmap.
    destruct (mapped img) eqn:Hm; injection Hunmap as <- _;
      [discriminate|]. rewrite Hm. discriminate.
  - destruct (Z.eq_dec (handle img) VK_NULL_HANDLE) as [Hh | Hh];
      [rewrite Image_dtor_no_release in Hdtor by (now left);
       injection Hdtor as <- _; exact IH|].
    destruct (Z.eq_dec (memory img) VK_NULL_HANDLE) as [Hm | Hm];
      [rewrite Image_dtor_no_release in Hdtor by (now right);
       injection Hdtor as <- _; exact IH|].
    rewrite (Image_dtor_release _ _ Hh Hm) in Hdtor.
    destruct (mapped img) eqn:Hmapped; injection Hdtor as <- _;
      [discriminate|]. rewrite Hmapped. discriminate.
  - exact IH.
Qed.

End ImageProofs.

(** ** The model at work on concrete inputs *)

Lemma find_image_type_rule_witness :
  find_image_type {| width := 1024; height := 0; depth := 0 |}
    = Returns VK_IMAGE_TYPE_1D
  /\ find_image_type {| width := 1024; height := 1024; depth := 1 |}
      = Returns VK_IMAGE_TYPE_2D
  /\ find_image_type {| width := 16; height := 16; depth := 16 |}
      = Returns VK_IMAGE_TYPE_3D.
Proof.
  split; [|split].
  - destruct (find_image_type_rule 1024 0 0) as (_ & _ & H1d & _).
    apply H1d; lia.
  - destruct (find_image_type_rule 1024 1024 1) as (_ & _ & _ & H2d & _).
    apply H2d; lia.
  - destruct (find_image_type_rule 16 16 16) as (_ & _ & _ & _ & H3d & _).
    apply H3d; lia.
Defined.

Lemma Image_ctor_handle_infers_type_witness :
  (forall mu sc ml al t,
     @Image_ctor strict_allocator false 1 extent_none 44 16 mu sc ml al t
                 (world0 strict_allocator 0)
       = (Fails InvalidExtent, world0 strict_allocator 0))
  /\ exists img,
       @Image_ctor_handle strict_allocator 1 77 extent_2d 44 16
                          (world0 strict_allocator 0)
         = (Returns img, world0 strict_allocator 0)
       /\ type img = VK_IMAGE_TYPE_2D.
Proof.
  destruct (@Image_ctor_handle_infers_type strict_allocator false
              1 77 extent_none 44 16 (world0 strict_allocator 0))
    as (Hout & _ & _).
  destruct (@Image_ctor_handle_infers_type strict_allocator false
              1 77 extent_2d 44 16 (world0 strict_allocator 0))
    as (_ & _ & Hin).
  split.
  - apply Hout; vm_compute; discriminate.
  - apply Hin. reflexivity.
Defined.

Lemma Image_ctor_handle_borrowed_witness :
  exists img,
    @Image_ctor_handle strict_allocator 1 77 extent_2d 44 16
                       (world0 strict_allocator 0)
      = (Returns img, world0 strict_allocator 0)
    /\ handle img = 77 /\ memory img = VK_NULL_HANDLE
    /\ @Image_dtor strict_allocator img (world0 strict_allocator 0)
         = (Returns img, world0 strict_allocator 0).
Proof.
  destruct (@Image_ctor_handle_borrowed strict_allocator 1 77 extent_2d 44 16
              (world0 strict_allocator 0) VK_IMAGE_TYPE_2D eq_refl)
    as (img & Hctor & Hh & Hm & _ & _ & _ & Hdtor & _).
  exists img. repeat split; try assumption. apply Hdtor.
Defined.

Lemma Image_ctor_failures_witness :
  @Image_ctor strict_allocator false 1 extent_none 37 16 1 1 1 1
              VK_IMAGE_TILING_OPTIMAL (world0 strict_allocator 0)
    = (Fails InvalidExtent, world0 strict_allocator 0)
  /\ (exists msg,
        @Image_ctor strict_allocator false 1 extent_2d 37 16 1 1 0 1
                    VK_IMAGE_TILING_OPTIMAL (world0 strict_allocator 0)
          = (Fails (assertion_failed msg), world0 strict_allocator 0))
  /\ fst (@Image_ctor exhausted_allocator false 1 extent_2d 37 16 1 1 1 1
                      VK_IMAGE_TILING_OPTIMAL (world0 exhausted_allocator 0))
       = Fails (VulkanException (-2) "Cannot create Image").
Proof.
  split; [|split].
  - destruct (@Image_ctor_failures strict_allocator false 1 extent_none
                37 16 1 1 1 1 VK_IMAGE_TILING_OPTIMAL
                (world0 strict_allocator 0)) as (Hextent & _ & _).
    apply (Hextent InvalidExtent). reflexivity.
  - destruct (@Image_ctor_failures strict_allocator false 1 extent_2d
                37 16 1 1 0 1 VK_IMAGE_TILING_OPTIMAL
                (world0 strict_allocator 0)) as (_ & Hassert & _).
    apply (Hassert VK_IMAGE_TYPE_2D); [reflexivity|reflexivity|lia].
  - destruct (@Image_ctor_failures exhausted_allocator false 1 extent_2d
                37 16 1 1 1 1 VK_IMAGE_TILING_OPTIMAL
                (world0 exhausted_allocator 0)) as (_ & _ & Halloc).
    rewrite (Halloc VK_IMAGE_TYPE_2D (-2) VK_NULL_HANDLE VK_NULL_HANDLE 1);
      [reflexivity|reflexivity|right; lia|reflexivity|discriminate].
Defined.

Lemma Image_ctor_lazily_allocated_witness :
  exists o image_info memory_info r h m a,
    @Image_ctor strict_allocator false 1 extent_2d 37 (16 + 64) 1 1 1 1
                VK_IMAGE_TILING_OPTIMAL (world0 strict_allocator 0)
      = (o, World_after a [EvCreateImage image_info memory_info r h m]
                        (world0 strict_allocator 0))
    /\ Z.land (VmaAllocationCreateInfo.preferredFlags memory_info)
              VK_MEMORY_PROPERTY_LAZILY_ALLOCATED_BIT
       = VK_MEMORY_PROPERTY_LAZILY_ALLOCATED_BIT.
Proof.
  destruct (@Image_ctor_lazily_allocated strict_allocator false
              1 extent_2d 37 (16 + 64) 1 1 1 1 VK_IMAGE_TILING_OPTIMAL
              (world0 strict_allocator 0) VK_IMAGE_TYPE_2D)
    as (o & ii & mi & r & h & m & a & Hrun & _ & _ & Hbit & _).
  - reflexivity.
  - right. lia.
  - exists o, ii, mi, r, h, m, a. split; [exact Hrun|].
    apply Hbit. vm_compute. discriminate.
Defined.

Lemma Image_map_idempotent_witness :
  @Image_map_n strict_allocator 3 (set_views ∅ image_with_views)
               (world0 strict_allocator 5)
    = (Returns ([6096; 6096; 6096], image_mapped),
       World_after (6 : @allocator_state strict_allocator)
         [EvLogW "Mapping image memory that is not linear";
          EvMapMemory 2000 VK_SUCCESS 6096]
         (world0 strict_allocator 5)).
Proof.
  destruct (@Image_map_idempotent strict_allocator 2
              (set_views ∅ image_with_views) (world0 strict_allocator 5)
              6096 6)
    as (Hrun & _).
  - reflexivity.
  - reflexivity.
  - discriminate.
  - exact Hrun.
Defined.

Lemma Image_dtor_protocol_witness :
  @Image_dtor strict_allocator image_borrowed (world0 strict_allocator 0)
    = (Returns image_borrowed, world0 strict_allocator 0)
  /\ @Image_dtor strict_allocator image_mapped (world0 strict_allocator 0)
     = (Returns (set_views ∅ image_with_views),
        World_after (2 : @allocator_state strict_allocator)
                    [EvUnmapMemory 2000; EvDestroyImage 1000 2000]
                    (world0 strict_allocator 0))
  /\ (exists image_info memory_info a0,
        @vmaCreateImage strict_allocator 0 image_info memory_info
          = (VK_SUCCESS, 1000, 2000, a0)).
Proof.
  split; [|split].
  - destruct (@Image_dtor_protocol strict_allocator false image_borrowed
                (world0 strict_allocator 0)) as (Hnone & _ & _).
    apply Hnone. right. reflexivity.
  - destruct (@Image_dtor_protocol strict_allocator false image_mapped
                (world0 strict_allocator 0)) as (_ & Hrelease & _).
    destruct Hrelease as (Hrun & _); [discriminate|discriminate|].
    exact Hrun.
  - destruct (@Image_dtor_protocol strict_allocator false image_mapped
                (World_after (2 : @allocator_state strict_allocator)
                   [EvCreateImage
                      (ctor_image_info VK_IMAGE_TYPE_2D extent_2d 37 16 1 1 1
                                       VK_IMAGE_TILING_OPTIMAL)
                      (ctor_memory_info 1 16) VK_SUCCESS 1000 2000;
                    EvLogW "Mapping image memory that is not linear";
                    EvMapMemory 2000 VK_SUCCESS 6096]
                   (world0 strict_allocator 0)))
      as (_ & _ & Hpair).
    destruct (Hpair 1 extent_2d 37 16 1 1 1 1 VK_IMAGE_TILING_OPTIMAL
                    (world0 strict_allocator 0)
                    (set_views ∅ image_with_views)
                    (World_after (1 : @allocator_state strict_allocator)
                       [EvCreateImage
                          (ctor_image_info VK_IMAGE_TYPE_2D extent_2d 37 16 1
                                           1 1 VK_IMAGE_TILING_OPTIMAL)
                          (ctor_memory_info 1 16) VK_SUCCESS 1000 2000]
                       (world0 strict_allocator 0))
                    [OpMap; OpMap])
      as (ii & mi & a0 & Hcall & _).
    + reflexivity.
    + reflexivity.
    + exists ii, mi, a0. exact Hcall.
Defined.

Lemma mapped_implies_allocation_witness :
  memory image_mapped <> VK_NULL_HANDLE.
Proof.
  apply (@mapped_implies_allocation strict_allocator false).
  - intros a m r p a'. cbn.
    destruct (m =? VK_NULL_HANDLE) eqn:Hm; cbn.
    + intros [= <- _ _]. discriminate.
    + intros _ _. now apply Z.eqb_neq.
  - apply (@reach_map strict_allocator false (set_views ∅ image_with_views)
             (world0 strict_allocator 1) 6096 _
             (World_after (2 : @allocator_state strict_allocator)
                [EvLogW "Mapping image memory that is not linear";
                 EvMapMemory 2000 VK_SUCCESS 6096]
                (world0 strict_allocator 1))).
    + apply (@reach_ctor strict_allocator false 1 extent_2d 37 16 1 1 1 1
               VK_IMAGE_TILING_OPTIMAL (world0 strict_allocator 0) _
               (World_after (1 : @allocator_state strict_allocator)
                  [EvCreateImage
                     (ctor_image_info VK_IMAGE_TYPE_2D extent_2d 37 16 1 1 1
                                      VK_IMAGE_TILING_OPTIMAL)
                     (ctor_memory_info 1 16) VK_SUCCESS 1000 2000]
                  (world0 strict_allocator 0))).
      reflexivity.
    + reflexivity.
  - reflexivity.
Defined.

(** C1 fails on the code. The image at address 100 has the views 501 and
    502 registered, and both point to it.  Move-constructing it into address
    200 calls [set_image] on neither: the trace stays empty and both views
    still point to the moved-from object at 100. *)
Theorem Image_ctor_move_rebinds_no_view :
  let r := @Image_ctor_move strict_allocator 200 image_with_views
                            (world_with_views strict_allocator 0) in
  fst r = Returns (set_views ∅ image_with_views, moved_from image_with_views)
  /\ trace (snd r) = []
  /\ count_events is_set_image (trace (snd r)) = O
  /\ view_image (snd r) !! 501 = Some 100
  /\ view_image (snd r) !! 502 = Some 100.
Proof. cbv zeta. repeat split. Qed.

(** C4 fails on the code. Move construction does not transfer the set of
    views: the destination's set is empty although the source had the views
    501 and 502 registered, and the source keeps them. *)
Theorem Image_ctor_move_drops_views :
  exists self other',
    @Image_ctor_move strict_allocator 200 image_with_views
                     (world_with_views strict_allocator 0)
      = (Returns (self, other'), world_with_views strict_allocator 0)
    /\ views self = ∅
    /\ views self <> views image_with_views
    /\ views other' = views image_with_views.
Proof.
  eexists _, _. split; [reflexivity|]. split; [reflexivity|].
  split; [|reflexivity].
  intros Heq. cbn in Heq. unfold default_views in Heq.
  assert (Hin : (501 : ptr) ∈ (∅ : gset ptr)) by (rewrite Heq; set_solver).
  set_solver.
Qed.

(** ** Further properties of the image resource *)

Section ImageLifecycle.
Context `{VmaAllocator}.
Variable NDEBUG : bool.

(** Type inference fails only with InvalidExtent, and exactly when no axis
    counts: width and height below 1 and depth at most 1, as for (0,0,1). *)
Theorem find_image_type_fails_iff (w h d : Z) (f : failure) :
  find_image_type {| width := w; height := h; depth := d |} = Fails f
  <-> f = InvalidExtent /\ w < 1 /\ h < 1 /\ d <= 1.
Proof.
  unfold find_image_type. rewrite dim_num_spec. unfold spec_dim_count.
  destruct (Z.leb_spec 1 w), (Z.leb_spec 1 h), (Z.ltb_spec 1 d); cbn;
    split; try discriminate; try (intros (_ & ? & ? & ?); lia).
  - intros [= <-]. repeat split; try reflexivity; lia.
  - intros (-> & _). reflexivity.
Qed.

(** An extent is classified 3D exactly when all three axes count; width and
    height are interchangeable; and an extent with depth alone, (0,0,D) with
    D > 1, is classified 1D. *)
Theorem find_image_type_axes (w h d : Z) :
  (find_image_type {| width := w; height := h; depth := d |}
     = Returns VK_IMAGE_TYPE_3D
   <-> 1 <= w /\ 1 <= h /\ 1 < d)
  /\ find_image_type {| width := w; height := h; depth := d |}
     = find_image_type {| width := h; height := w; depth := d |}
  /\ (1 < d ->
      find_image_type {| width := 0; height := 0; depth := d |}
        = Returns VK_IMAGE_TYPE_1D).
Proof.
  unfold find_image_type. rewrite !dim_num_spec. unfold spec_dim_count.
  split; [|split].
  - destruct (Z.leb_spec 1 w), (Z.leb_spec 1 h), (Z.ltb_spec 1 d); cbn;
      split; try discriminate; try (intros (? & ? & ?); lia).
    + intros _. repeat split; assumption.
    + reflexivity.
  - destruct (1 <=? w), (1 <=? h), (1 <? d); reflexivity.
  - intros Hd. cbn. apply Z.ltb_lt in Hd. now rewrite Hd.
Qed.

Lemma run_op_descriptor o img w img' w' :
  run_op o img w = (Returns img', w') ->
  device img' = device img /\ handle img' = handle img /\
  memory img' = memory img /\ type img' = type img /\
  extent img' = extent img /\ format img' = format img /\
  sample_count img' = sample_count img /\ usage img' = usage img /\
  tiling img' = tiling img /\ subresource img' = subresource img.
Proof.
  destruct o as [| |vs]; cbn [run_op].
  - unfold bind, ret.
    destruct (Image_map img w) as [[[p i1]|f] w1] eqn:Hmap; [|discriminate].
    cbn. intros [= <- <-].
    apply Image_map_inv in Hmap
      as [(_ & _ & -> & ->) | (_ & a & _ & -> & ->)];
      repeat split; reflexivity.
  - rewrite Image_unmap_eq. destruct (mapped img); intros [= <- <-];
      repeat split; reflexivity.
  - intros [= <- <-]. repeat split; reflexivity.
Qed.

(** [map], [unmap] and changes to the view set never write the descriptor:
    device, handle, allocation, type, extent, format, sample count, usage,
    tiling and subresource are what they were, also once the destructor has
    run, which leaves the view set alone as well. *)
Theorem Image_descriptor_immutable os : forall img w img' w',
  run_ops os img w = (Returns img', w') ->
  (device img' = device img /\ handle img' = handle img /\
   memory img' = memory img /\ type img' = type img /\
   extent img' = extent img /\ format img' = format img /\
   sample_count img' = sample_count img /\ usage img' = usage img /\
   tiling img' = tiling img /\ subresource img' = subresource img)
  /\ forall img'' w'',
       Image_dtor img' w' = (Returns img'', w'') ->
       device img'' = device img /\ handle img'' = handle img /\
       memory img'' = memory img /\ type img'' = type img /\
       extent img'' = extent img /\ format img'' = format img /\
       sample_count img'' = sample_count img /\ usage img'' = usage img /\
       tiling img'' = tiling img /\ subresource img'' = subresource img /\
       views img'' = views img'.
Proof.
  induction os as [|o os IH]; intros img w img' w'; cbn [run_ops].
  - intros [= <- <-]. split; [repeat split; reflexivity|].
    intros img'' w'' Hdtor.
    destruct (Z.eq_dec (handle img) VK_NULL_HANDLE) as [Hh | Hh];
      [rewrite Image_dtor_no_release in Hdtor by (now left);
       injection Hdtor as <- _; repeat split; reflexivity|].
    destruct (Z.eq_dec (memory img) VK_NULL_HANDLE) as [Hm | Hm];
      [rewrite Image_dtor_no_release in Hdtor by (now right);
       injection Hdtor as <- _; repeat split; reflexivity|].
    rewrite (Image_dtor_release _ _ Hh Hm) in Hdtor.
    destruct (mapped img); injection Hdtor as <- _; repeat split; reflexivity.
  - unfold bind at 1.
    destruct (run_op o img w) as [[i1|f] w1] eqn:Hop; [|discriminate].
    intros Hrest.
    apply run_op_descriptor in Hop
      as (E1 & E2 & E3 & E4 & E5 & E6 & E7 & E8 & E9 & E10).
    destruct (IH _ _ _ _ Hrest) as (Hops & Hdtor).
    rewrite <- E1, <- E2, <- E3, <- E4, <- E5, <- E6, <- E7, <- E8, <- E9,
      <- E10.
    split; [exact Hops|exact Hdtor].
Qed.

(** Mapping an unmapped image and unmapping it again gives the image back
    as it was; the allocator sees one map_memory and one unmap_memory for the
    same allocation, in that order. *)
Theorem Image_map_unmap_round_trip img w p a :
  mapped_data img = nullptr ->
  mapped img = false ->
  vmaMapMemory (allocator w) (memory img) = (VK_SUCCESS, p, a) ->
  exists img1 w1 w2,
    Image_map img w = (Returns (p, img1), w1) /\
    Image_unmap img1 w1 = (Returns img, w2) /\
    trace w2 = trace w ++ map_warning img
               ++ [EvMapMemory (memory img) VK_SUCCESS p;
                   EvUnmapMemory (memory img)].
Proof.
  intros Hnull Hflag Hcall.
  eexists _, _, _. split; [|split].
  - rewrite (Image_map_unmapped _ _ _ _ _ Hnull Hcall). reflexivity.
  - rewrite Image_unmap_mapped by reflexivity.
    f_equal. f_equal.
    destruct img; cbn in *; subst; reflexivity.
  - cbn [World_after trace set_mapped set_mapped_data memory].
    rewrite <- !app_assoc. reflexivity.
Qed.

(** [unmap] is idempotent: after one call the image is not mapped, and a
    second call changes neither the image nor the world. *)
Theorem Image_unmap_idempotent img w :
  exists img1 w1,
    Image_unmap img w = (Returns img1, w1) /\
    mapped img1 = false /\
    Image_unmap img1 w1 = (Returns img1, w1).
Proof.
  rewrite Image_unmap_eq. destruct (mapped img) eqn:Hm.
  - eexists _, _. split; [reflexivity|]. split; [reflexivity|].
    now apply Image_unmap_unmapped.
  - exists img, w. split; [reflexivity|]. split; [assumption|].
    now apply Image_unmap_unmapped.
Qed.

(** After a move, destroying the moved-from object does nothing, and
    destroying the new object does to the allocator and the trace exactly
    what destroying the source would have done: the release happens once. *)
Theorem Image_move_then_destroy this other w :
  exists self other',
    Image_ctor_move this other w = (Returns (self, other'), w) /\
    (forall w1, Image_dtor other' w1 = (Returns other', w1)) /\
    (forall w1, snd (Image_dtor self w1) = snd (Image_dtor other w1)).
Proof.
  eexists _, _. split; [apply Image_ctor_move_eq|]. split.
  - intros w1. apply Image_dtor_no_release. now left.
  - intros w1. unfold Image_dtor. cbn [handle memory set_views].
    destruct (negb (handle other =? VK_NULL_HANDLE)
              && negb (memory other =? VK_NULL_HANDLE)); [|reflexivity].
    unfold bind at 1 3. rewrite !Image_unmap_eq. cbn [mapped set_views].
    destruct (mapped other); reflexivity.
Qed.

(** In every reachable state a non-null [mapped_data] comes with
    [mapped = true], whatever the allocator answers: [unmap], which tests
    [mapped], never leaves a mapping behind. *)
Theorem mapped_data_implies_mapped img :
  reachable NDEBUG img -> mapped_data img <> nullptr -> mapped img = true.
Proof.
  intros Hreach.
  induction Hreach as
    [dev e f u mu sc ml al t w img w' Hctor
    |dev h e f u w img w' Hctor
    |this other w self other' w' Hreach IH Hmove
    |this other w self other' w' Hreach IH Hmove
    |img w p img' w' Hreach IH Hmap
    |img w img' w' Hreach IH Hunmap
    |img w img' w' Hreach IH Hdtor
    |img vs Hreach IH].
  - apply Image_ctor_inv in Hctor as (ty & h & m & a & _ & _ & -> & _).
    cbn. intros Hp. now contradiction Hp.
  - destruct (find_image_type e) as [ty|err] eqn:Hty.
    + rewrite (Image_ctor_handle_returns _ _ _ _ _ _ _ Hty) in Hctor.
      injection Hctor as <- _. cbn. intros Hp. now contradiction Hp.
    + rewrite (Image_ctor_handle_fails _ _ _ _ _ _ _ Hty) in Hctor.
      discriminate.
  - rewrite Image_ctor_move_eq in Hmove. injection Hmove as <- _ _.
    exact IH.
  - rewrite Image_ctor_move_eq in Hmove. injection Hmove as _ <- _.
    cbn. intros Hp. now contradiction Hp.
  - apply Image_map_inv in Hmap
      as [(_ & _ & -> & _) | (_ & a & Hcall & -> & _)]; [exact IH|].
    reflexivity.
  - rewrite Image_unmap_eq in Hunmap.
    destruct (mapped img) eqn:Hm; injection Hunmap as <- _;
      [cbn; intros Hp; now contradiction Hp|].
    rewrite Hm. exact IH.
  - destruct (Z.eq_dec (handle img) VK_NULL_HANDLE) as [Hh | Hh];
      [rewrite Image_dtor_no_release in Hdtor by (now left);
       injection Hdtor as <- _; exact IH|].
    destruct (Z.eq_dec (memory img) VK_NULL_HANDLE) as [Hm | Hm];
      [rewrite Image_dtor_no_release in Hdtor by (now right);
       injection Hdtor as <- _; exact IH|].
    rewrite (Image_dtor_release _ _ Hh Hm) in Hdtor.
    destruct (mapped img) eqn:Hmapped; injection Hdtor as <- _;
      [cbn; intros Hp; now contradiction Hp|].
    rewrite Hmapped. exact IH.
  - exact IH.
Qed.

(** Conversely, when the allocator only ever hands out non-null pointers, a
    reachable image with [mapped = true] has a non-null [mapped_data]. *)
Theorem mapped_implies_mapped_data :
  (forall a m r p a',
     vmaMapMemory a m = (r, p, a') -> r = VK_SUCCESS -> p <> nullptr) ->
  forall img,
    reachable NDEBUG img -> mapped img = true -> mapped_data img <> nullptr.
Proof.
  intros Halloc img Hreach.
  induction Hreach as
    [dev e f u mu sc ml al t w img w' Hctor
    |dev h e f u w img w' Hctor
    |this other w self other' w' Hreach IH Hmove
    |this other w self other' w' Hreach IH Hmove
    |img w p img' w' Hreach IH Hmap
    |img w img' w' Hreach IH Hunmap
    |img w img' w' Hreach IH Hdtor
    |img vs Hreach IH].
  - apply Image_ctor_inv in Hctor as (ty & h & m & a & _ & _ & -> & _).
    discriminate.
  - destruct (find_image_type e) as [ty|err] eqn:Hty.
    + rewrite (Image_ctor_handle_returns _ _ _ _ _ _ _ Hty) in Hctor.
      injection Hctor as <- _. discriminate.
    + rewrite (Image_ctor_handle_fails _ _ _ _ _ _ _ Hty) in Hctor.
      discriminate.
  - rewrite Image_ctor_move_eq in Hmove. injection Hmove as <- _ _.
    exact IH.
  - rewrite Image_ctor_move_eq in Hmove. injection Hmove as _ <- _.
    discriminate.
  - apply Image_map_inv in Hmap
      as [(_ & _ & -> & _) | (_ & a & Hcall & -> & _)]; [exact IH|].
    intros _. cbn. exact (Halloc _ _ _ _ _ Hcall eq_refl).
  - rewrite Image_unmap_eq in Hunmap.
    destruct (mapped img) eqn:Hm; injection Hunmap as <- _;
      [discriminate|]. rewrite Hm. discriminate.
  - destruct (Z.eq_dec (handle img) VK_NULL_HANDLE) as [Hh | Hh];
      [rewrite Image_dtor_no_release in Hdtor by (now left);
       injection Hdtor as <- _; exact IH|].
    destruct (Z.eq_dec (memory img) VK_NULL_HANDLE) as [Hm | Hm];
      [rewrite Image_dtor_no_release in Hdtor by (now right);
       injection Hdtor as <- _; exact IH|].
    rewrite (Image_dtor_release _ _ Hh Hm) in Hdtor.
    destruct (mapped img) eqn:Hmapped; injection Hdtor as <- _;
      [discriminate|]. rewrite Hmapped. discriminate.
  - exact IH.
Qed.

Lemma count_map_warning_log img :
  count_events is_log_warning (map_warning img)
    = if VkImageTiling_eqb (tiling img) VK_IMAGE_TILING_LINEAR
      then O else 1%nat.
Proof.
  unfold map_warning.
  destruct (VkImageTiling_eqb (tiling img) VK_IMAGE_TILING_LINEAR);
    reflexivity.
Qed.

Lemma run_op_warnings o img w img' w' :
  run_op o img w = (Returns img', w') ->
  tiling img' = tiling img /\
  (tiling img = VK_IMAGE_TILING_LINEAR ->
   count_events is_log_warning (trace w')
     = count_events is_log_warning (trace w)) /\
  (tiling img <> VK_IMAGE_TILING_LINEAR ->
   (count_events is_log_warning (trace w')
    + count_events is_map_memory (trace w)
    = count_events is_log_warning (trace w)
      + count_events is_map_memory (trace w'))%nat).
Proof.
  destruct o as [| |vs]; cbn [run_op].
  - unfold bind, ret.
    destruct (Image_map img w) as [[[p i1]|f] w1] eqn:Hmap; [|discriminate].
    cbn. intros [= <- <-].
    apply Image_map_inv in Hmap
      as [(_ & _ & -> & ->) | (_ & a & _ & -> & ->)];
      [repeat split; reflexivity|].
    split; [reflexivity|]. cbn [World_after trace].
    rewrite !count_events_app, count_map_warning_log.
    rewrite (count_map_warning is_map_memory) by reflexivity.
    destruct (tiling img); cbn; split; intros Ht; try congruence; lia.
  - rewrite Image_unmap_eq. destruct (mapped img); intros [= <- <-].
    + split; [reflexivity|]. cbn [World_after trace].
      rewrite !count_events_app. cbn. split; intros _; lia.
    + repeat split; reflexivity.
  - intros [= <- <-]. repeat split; reflexivity.
Qed.

(** Warnings and tiling: on a linear image no sequence of [map], [unmap]
    and view-set changes logs a warning; on any other tiling there is one
    warning for every call of map_memory. *)
Theorem Image_map_warnings os : forall img w img' w',
  run_ops os img w = (Returns img', w') ->
  (tiling img = VK_IMAGE_TILING_LINEAR ->
   count_events is_log_warning (trace w')
     = count_events is_log_warning (trace w)) /\
  (tiling img <> VK_IMAGE_TILING_LINEAR ->
   (count_events is_log_warning (trace w')
    + count_events is_map_memory (trace w)
    = count_events is_log_warning (trace w)
      + count_events is_map_memory (trace w'))%nat).
Proof.
  induction os as [|o os IH]; intros img w img' w'; cbn [run_ops].
  - intros [= <- <-]. split; intros _; reflexivity.
  - unfold bind at 1.
    destruct (run_op o img w) as [[i1|f] w1] eqn:Hop; [|discriminate].
    intros Hrest.
    apply run_op_warnings in Hop as (Ht & Hlin & Hopt).
    apply IH in Hrest as (Hlin' & Hopt'). rewrite Ht in Hlin', Hopt'.
    split; intros Htiling.
    + rewrite (Hlin' Htiling). exact (Hlin Htiling).
    + specialize (Hopt Htiling). specialize (Hopt' Htiling). lia.
Qed.

Lemma run_op_balance o img w img' w' :
  (forall a m r p a',
     vmaMapMemory a m = (r, p, a') -> r = VK_SUCCESS -> p <> nullptr) ->
  (mapped img = true -> mapped_data img <> nullptr) ->
  run_op o img w = (Returns img', w') ->
  (mapped img' = true -> mapped_data img' <> nullptr) /\
  (count_events is_map_memory (trace w')
   + count_events is_unmap_memory (trace w)
   + bool_to_nat (mapped img)
   = count_events is_map_memory (trace w)
     + count_events is_unmap_memory (trace w')
     + bool_to_nat (mapped img'))%nat.
Proof.
  intros Halloc Hinv.
  destruct o as [| |vs]; cbn [run_op].
  - unfold bind, ret.
    destruct (Image_map img w) as [[[p i1]|f] w1] eqn:Hmap; [|discriminate].
    cbn. intros [= <- <-].
    apply Image_map_inv in Hmap
      as [(_ & _ & -> & ->) | (Hnull & a & Hcall & -> & ->)];
      [split; [exact Hinv|reflexivity]|].
    split; [intros _; cbn; exact (Halloc _ _ _ _ _ Hcall eq_refl)|].
    assert (Hflag : mapped img = false).
    { destruct (mapped img); [|reflexivity].
      now contradiction (Hinv eq_refl). }
    rewrite Hflag. cbn [World_after trace mapped set_mapped bool_to_nat].
    rewrite !count_events_app.
    rewrite (count_map_warning is_map_memory) by reflexivity.
    rewrite (count_map_warning is_unmap_memory) by reflexivity.
    cbn. lia.
  - rewrite Image_unmap_eq. destruct (mapped img) eqn:Hm; intros [= <- <-].
    + split; [discriminate|].
      cbn [World_after trace mapped set_mapped bool_to_nat].
      rewrite !count_events_app. cbn. lia.
    + split; [rewrite Hm; discriminate|]. rewrite Hm. reflexivity.
  - intros [= <- <-]. split; [exact Hinv|reflexivity].
Qed.

Lemma run_ops_balance os : forall img w img' w',
  (forall a m r p a',
     vmaMapMemory a m = (r, p, a') -> r = VK_SUCCESS -> p <> nullptr) ->
  (mapped img = true -> mapped_data img <> nullptr) ->
  run_ops os img w = (Returns img', w') ->
  (count_events is_map_memory (trace w')
   + count_events is_unmap_memory (trace w)
   + bool_to_nat (mapped img)
   = count_events is_map_memory (trace w)
     + count_events is_unmap_memory (trace w')
     + bool_to_nat (mapped img'))%nat.
Proof.
  induction os as [|o os IH]; intros img w img' w' Halloc Hinv;
    cbn [run_ops].
  - intros [= <- <-]. reflexivity.
  - unfold bind at 1.
    destruct (run_op o img w) as [[i1|f] w1] eqn:Hop; [|discriminate].
    intros Hrest.
    apply (run_op_balance _ _ _ _ _ Halloc Hinv) in Hop as (Hinv1 & Hbal1).
    pose proof (IH _ _ _ _ Halloc Hinv1 Hrest) as Hbal. lia.
Qed.

(** A whole owning lifecycle is balanced.  When the allocator hands out a
    non-null handle and allocation and only non-null pointers, then from
    construction over any sequence of [map], [unmap] and view-set changes to
    destruction there is exactly one create_image, exactly one destroy_image,
    as many unmap_memory as map_memory calls, and the image ends unmapped. *)
Theorem Image_owning_lifecycle_balanced
    dev e f u mu sc ml al t w0 img0 w1 os img w2 :
  (forall a m r p a',
     vmaMapMemory a m = (r, p, a') -> r = VK_SUCCESS -> p <> nullptr) ->
  Image_ctor NDEBUG dev e f u mu sc ml al t w0 = (Returns img0, w1) ->
  handle img0 <> VK_NULL_HANDLE ->
  memory img0 <> VK_NULL_HANDLE ->
  run_ops os img0 w1 = (Returns img, w2) ->
  exists img' w3,
    Image_dtor img w2 = (Returns img', w3) /\
    mapped img' = false /\
    count_events is_create_image (trace w3)
      = S (count_events is_create_image (trace w0)) /\
    count_events is_destroy_image (trace w3)
      = S (count_events is_destroy_image (trace w0)) /\
    (count_events is_map_memory (trace w3)
     + count_events is_unmap_memory (trace w0)
     = count_events is_map_memory (trace w0)
       + count_events is_unmap_memory (trace w3))%nat.
Proof.
  intros Halloc Hctor Hh Hm Hrun.
  apply Image_ctor_inv in Hctor as (ty & h & m & a & _ & _ & -> & ->).
  cbn [handle memory] in Hh, Hm.
  pose proof (run_ops_frame _ _ _ _ _ Hrun) as (Eh & Em & Ec & Ed).
  pose proof (fun Hinv => run_ops_balance _ _ _ _ _ Halloc Hinv Hrun) as Hbal.
  specialize (Hbal ltac:(cbn; discriminate)).
  cbn [handle memory mapped bool_to_nat World_after trace] in *.
  rewrite !count_events_app in *. cbn [count_events is_create_image
    is_destroy_image is_map_memory is_unmap_memory] in *.
  rewrite <- Eh in Hh. rewrite <- Em in Hm.
  rewrite (Image_dtor_release _ _ Hh Hm).
  destruct (mapped img) eqn:Hmapped; eexists _, _;
    (split; [reflexivity|]);
    cbn [World_after trace mapped set_mapped set_mapped_data bool_to_nat] in *;
    rewrite !count_events_app; cbn; repeat split; try assumption; lia.
Qed.

End ImageLifecycle.

(** ** Properties of the AFBC sample *)

Section AFBCProofs.
Variable float : Type.

Lemma AFBC_recreate_swapchain_eq (s : AFBCSample.t)
    (tr : list (AFBCSample.event float)) :
  exists flags,
    AFBCSample.recreate_swapchain s tr
      = (s, tr ++ [AFBCSample.EvWaitIdle; AFBCSample.EvUpdateSwapchain flags])
    /\ AFBCSample.flags_allow_afbc flags = AFBCSample.afbc_enabled s.
Proof.
  unfold AFBCSample.recreate_swapchain, AFBCSample.flags_allow_afbc.
  destruct (AFBCSample.afbc_enabled s); cbn [negb];
    eexists; (split; [rewrite <- app_assoc; reflexivity|]); reflexivity.
Qed.

(** Recreating the swapchain waits for the device to be idle before it
    updates the swapchain; the usage flags always hold the colour-attachment
    bit and hold the storage bit exactly when AFBC is disabled. *)
Theorem AFBC_recreate_swapchain_flags (s : AFBCSample.t)
    (tr : list (AFBCSample.event float)) :
  exists flags,
    AFBCSample.recreate_swapchain s tr
      = (s, tr ++ [AFBCSample.EvWaitIdle; AFBCSample.EvUpdateSwapchain flags])
    /\ AFBCSample.VK_IMAGE_USAGE_COLOR_ATTACHMENT_BIT ∈ flags
    /\ (AFBCSample.VK_IMAGE_USAGE_STORAGE_BIT ∈ flags
        <-> AFBCSample.afbc_enabled s = false)
    /\ AFBCSample.flags_allow_afbc flags = AFBCSample.afbc_enabled s.
Proof.
  unfold AFBCSample.recreate_swapchain, AFBCSample.flags_allow_afbc.
  destruct (AFBCSample.afbc_enabled s); cbn [negb];
    eexists; (split; [rewrite <- app_assoc; reflexivity|]).
  - split; [set_solver|]. split; [|reflexivity].
    split; [|discriminate]. intros Hin. exfalso.
    apply elem_of_singleton in Hin. discriminate.
  - split; [set_solver|]. split; [|reflexivity].
    split; [reflexivity|]. intros _. set_solver.
Qed.

(** Up to the call of the base class, [update] is this. *)
Lemma AFBC_update_eq base delta (s : AFBCSample.t)
    (tr : list (AFBCSample.event float)) :
  exists flags,
    AFBCSample.flags_allow_afbc flags = AFBCSample.afbc_enabled s /\
    AFBCSample.update base delta s tr
    = base delta
        {| AFBCSample.afbc_enabled := AFBCSample.afbc_enabled s;
           AFBCSample.afbc_enabled_last_value := AFBCSample.afbc_enabled s |}
        (tr ++ if Bool.eqb (AFBCSample.afbc_enabled s)
                           (AFBCSample.afbc_enabled_last_value s)
               then []
               else [AFBCSample.EvWaitIdle;
                     AFBCSample.EvUpdateSwapchain flags]).
Proof.
  destruct (AFBC_recreate_swapchain_eq s tr) as (flags & Hre & Hmode).
  exists flags. split; [exact Hmode|].
  unfold AFBCSample.update.
  destruct (Bool.eqb (AFBCSample.afbc_enabled s)
                     (AFBCSample.afbc_enabled_last_value s)) eqn:Heq;
    cbn [negb].
  - apply Bool.eqb_prop in Heq. rewrite app_nil_r.
    destruct s as [en last]; cbn in *; subst; reflexivity.
  - rewrite Hre. reflexivity.
Qed.

(** [update] recreates the swapchain exactly when the flag differs from the
    value seen by the previous update, and then in the mode the flag asks
    for; it remembers the flag as the last value and then, as its last
    action, hands the object over to the base class's update, whatever that
    does. *)
Theorem AFBC_update_recreates_iff_changed base delta (s : AFBCSample.t)
    (tr : list (AFBCSample.event float)) :
  exists s1 tr1,
    AFBCSample.update base delta s tr = base delta s1 tr1
    /\ AFBCSample.afbc_enabled s1 = AFBCSample.afbc_enabled s
    /\ AFBCSample.afbc_enabled_last_value s1 = AFBCSample.afbc_enabled s
    /\ (AFBCSample.afbc_enabled s = AFBCSample.afbc_enabled_last_value s ->
        tr1 = tr)
    /\ (AFBCSample.afbc_enabled s <> AFBCSample.afbc_enabled_last_value s ->
        exists flags,
          tr1 = tr ++ [AFBCSample.EvWaitIdle;
                       AFBCSample.EvUpdateSwapchain flags]
          /\ AFBCSample.flags_allow_afbc flags = AFBCSample.afbc_enabled s).
Proof.
  destruct (AFBC_update_eq base delta s tr) as (flags & Hmode & Hup).
  eexists _, _. split; [exact Hup|].
  split; [reflexivity|]. split; [reflexivity|]. split.
  - intros Heq. rewrite Heq, Bool.eqb_reflx. apply app_nil_r.
  - intros Hne. apply Bool.eqb_false_iff in Hne. rewrite Hne.
    exists flags. split; [reflexivity|exact Hmode].
Qed.

Lemma AFBC_swapchain_mode_app (tr1 tr2 : list (AFBCSample.event float)) :
  forall current,
    AFBCSample.swapchain_mode (tr1 ++ tr2) current
      = AFBCSample.swapchain_mode tr2 (AFBCSample.swapchain_mode tr1 current).
Proof.
  induction tr1 as [|e tr1 IH]; intros current; cbn; [reflexivity|].
  destruct e; apply IH.
Qed.

Lemma AFBC_count_recreations_app (tr1 tr2 : list (AFBCSample.event float)) :
  AFBCSample.count_recreations (tr1 ++ tr2)
    = (AFBCSample.count_recreations tr1
       + AFBCSample.count_recreations tr2)%nat.
Proof.
  induction tr1 as [|e tr1 IH]; cbn; [reflexivity|].
  destruct e; cbn; now rewrite IH.
Qed.

(** When [update] hands over to the base class, the swapchain is in the mode
    the flag asks for, provided it was in the remembered mode before. *)
Lemma AFBC_update_hands_over base delta (s : AFBCSample.t)
    (tr : list (AFBCSample.event float)) :
  AFBCSample.swapchain_mode tr None
    = Some (AFBCSample.afbc_enabled_last_value s) ->
  exists s1 tr1,
    AFBCSample.update base delta s tr = base delta s1 tr1 /\
    AFBCSample.afbc_enabled s1 = AFBCSample.afbc_enabled s /\
    AFBCSample.afbc_enabled_last_value s1 = AFBCSample.afbc_enabled s /\
    AFBCSample.swapchain_mode tr1 None = Some (AFBCSample.afbc_enabled s).
Proof.
  intros Hsync.
  destruct (AFBC_update_eq base delta s tr) as (flags & Hmode & Hup).
  eexists _, _. split; [exact Hup|].
  split; [reflexivity|]. split; [reflexivity|].
  rewrite AFBC_swapchain_mode_app, Hsync.
  destruct (Bool.eqb (AFBCSample.afbc_enabled s)
                     (AFBCSample.afbc_enabled_last_value s)) eqn:Heq.
  - apply Bool.eqb_prop in Heq. cbn. now rewrite Heq.
  - cbn. now rewrite Hmode.
Qed.

Lemma AFBC_run_step_in_sync st (s : AFBCSample.t)
    (tr : list (AFBCSample.event float)) :
  AFBCSample.step_keeps_swapchain st ->
  AFBCSample.swapchain_mode tr None
    = Some (AFBCSample.afbc_enabled_last_value s) ->
  AFBCSample.swapchain_mode (snd (AFBCSample.run_step st s tr)) None
    = Some (AFBCSample.afbc_enabled_last_value
              (fst (AFBCSample.run_step st s tr))).
Proof.
  intros Hkeeps Hsync.
  destruct st as [base delta | checkbox]; cbn [AFBCSample.run_step].
  - destruct (AFBC_update_hands_over base delta s tr Hsync)
      as (s1 & tr1 & -> & _ & Hlast & Hmode).
    destruct (Hkeeps delta s1 tr1) as [-> ->].
    now rewrite Hmode, Hlast.
  - unfold AFBCSample.draw_gui.
    cbn [fst snd AFBCSample.afbc_enabled_last_value].
    rewrite AFBC_swapchain_mode_app, Hsync. reflexivity.
Qed.

(** The swapchain follows the flag.  Let the base class's update write
    neither the remembered value nor the swapchain's mode (it may write the
    flag).  If the swapchain's mode is the remembered value, it still is
    after any sequence of updates and GUI passes; and in every further update
    the swapchain is in the mode the flag asks for at the moment the base
    class's update takes over. *)
Theorem AFBC_swapchain_in_sync steps : forall (s : AFBCSample.t)
    (tr : list (AFBCSample.event float)),
  Forall AFBCSample.step_keeps_swapchain steps ->
  AFBCSample.swapchain_mode tr None
    = Some (AFBCSample.afbc_enabled_last_value s) ->
  AFBCSample.swapchain_mode (snd (AFBCSample.run steps s tr)) None
    = Some (AFBCSample.afbc_enabled_last_value
              (fst (AFBCSample.run steps s tr)))
  /\ forall base delta,
     exists s1 tr1,
       AFBCSample.update base delta (fst (AFBCSample.run steps s tr))
                         (snd (AFBCSample.run steps s tr))
         = base delta s1 tr1
       /\ AFBCSample.afbc_enabled s1
          = AFBCSample.afbc_enabled (fst (AFBCSample.run steps s tr))
       /\ AFBCSample.swapchain_mode tr1 None
          = Some (AFBCSample.afbc_enabled s1).
Proof.
  induction steps as [|st steps IH]; intros s tr Hkeeps Hsync.
  - cbn [AFBCSample.run fst snd]. split; [exact Hsync|].
    intros base delta.
    destruct (AFBC_update_hands_over base delta s tr Hsync)
      as (s1 & tr1 & Hup & Hen & _ & Hmode).
    exists s1, tr1. split; [exact Hup|]. split; [exact Hen|].
    now rewrite Hen.
  - cbn [AFBCSample.run].
    apply Forall_cons_iff in Hkeeps as [Hst Hrest].
    pose proof (AFBC_run_step_in_sync st s tr Hst Hsync) as Hstep.
    destruct (AFBCSample.run_step st s tr) as [s1 tr1]. cbn [fst snd] in Hstep.
    exact (IH s1 tr1 Hrest Hstep).
Qed.

(** Without a GUI pass in between, frames recreate the swapchain at most
    once: the first update does if the flag had changed, no later one
    does. *)
Theorem AFBC_updates_recreate_once frames : forall (s : AFBCSample.t)
    (tr : list (AFBCSample.event float)),
  Forall (fun frame => AFBCSample.no_gui_pass (fst frame)) frames ->
  AFBCSample.count_recreations
    (snd (AFBCSample.run
            (List.map (fun frame =>
                         AFBCSample.StepUpdate (fst frame) (snd frame))
                      frames) s tr))
  = (AFBCSample.count_recreations tr
     + match frames with
       | [] => O
       | _ :: _ =>
           if Bool.eqb (AFBCSample.afbc_enabled s)
                       (AFBCSample.afbc_enabled_last_value s)
           then O else 1%nat
       end)%nat.
Proof.
  induction frames as [|[base delta] frames IH]; intros s tr Hquiet.
  - cbn. lia.
  - apply Forall_cons_iff in Hquiet as [Hbase Hrest]. cbn [fst] in Hbase.
    cbn [List.map AFBCSample.run AFBCSample.run_step fst snd].
    destruct (AFBC_update_eq base delta s tr) as (flags & _ & Hup).
    rewrite Hup.
    match goal with
    | |- context [base delta ?s1 ?tr1] =>
        destruct (Hbase delta s1 tr1) as [Hs Hcount];
        destruct (base delta s1 tr1) as [s2 tr2]
    end.
    cbn [fst snd] in Hs, Hcount. subst s2.
    rewrite (IH _ _ Hrest). rewrite Hcount, AFBC_count_recreations_app.
    cbn [AFBCSample.afbc_enabled AFBCSample.afbc_enabled_last_value].
    rewrite Bool.eqb_reflx.
    destruct (Bool.eqb (AFBCSample.afbc_enabled s)
                       (AFBCSample.afbc_enabled_last_value s));
      destruct frames; cbn; lia.
Qed.

End AFBCProofs.

(** ** The further properties on concrete inputs *)

Lemma find_image_type_fails_iff_witness :
  find_image_type {| width := 0; height := 0; depth := 1 |}
    = Fails InvalidExtent.
Proof.
  apply (proj2 (find_image_type_fails_iff 0 0 1 InvalidExtent)).
  repeat split; lia.
Defined.

Lemma find_image_type_axes_witness :
  find_image_type {| width := 0; height := 0; depth := 7 |}
    = Returns VK_IMAGE_TYPE_1D
  /\ find_image_type {| width := 4; height := 4; depth := 4 |}
     = Returns VK_IMAGE_TYPE_3D.
Proof.
  split.
  - destruct (find_image_type_axes 0 0 7) as (_ & _ & Hdepth).
    apply Hdepth. lia.
  - destruct (find_image_type_axes 4 4 4) as (H3d & _).
    apply H3d. lia.
Defined.

Lemma Image_descriptor_immutable_witness :
  exists img' w',
    @run_ops strict_allocator [OpMap; OpViews {[ 9 ]}; OpUnmap]
             (set_views ∅ image_with_views) (world0 strict_allocator 0)
      = (Returns img', w')
    /\ handle img' = 1000 /\ extent img' = extent_2d.
Proof.
  assert (Hrun : exists img' w',
             @run_ops strict_allocator [OpMap; OpViews {[ 9 ]}; OpUnmap]
                      (set_views ∅ image_with_views)
                      (world0 strict_allocator 0)
               = (Returns img', w'))
    by (vm_compute; eauto).
  destruct Hrun as (img' & w' & Hrun). exists img', w'.
  split; [exact Hrun|].
  destruct (@Image_descriptor_immutable strict_allocator _ _ _ _ _ Hrun)
    as ((_ & Hh & _ & _ & He & _) & _).
  rewrite Hh, He. split; reflexivity.
Defined.

Lemma Image_map_unmap_round_trip_witness :
  exists img1 w1 w2,
    @Image_map strict_allocator (set_views ∅ image_with_views)
               (world0 strict_allocator 5) = (Returns (6096, img1), w1)
    /\ @Image_unmap strict_allocator img1 w1
       = (Returns (set_views ∅ image_with_views), w2).
Proof.
  destruct (@Image_map_unmap_round_trip strict_allocator
              (set_views ∅ image_with_views) (world0 strict_allocator 5)
              6096 6 eq_refl eq_refl eq_refl)
    as (img1 & w1 & w2 & Hmap & Hunmap & _).
  exists img1, w1, w2. split; assumption.
Defined.

Lemma image_mapped_reachable : @reachable careful_allocator false image_mapped.
Proof.
  apply (@reach_map careful_allocator false (set_views ∅ image_with_views)
           (world0 careful_allocator 1) 6096 _
           (World_after (2 : @allocator_state careful_allocator)
              [EvLogW "Mapping image memory that is not linear";
               EvMapMemory 2000 VK_SUCCESS 6096]
              (world0 careful_allocator 1))).
  - apply (@reach_ctor careful_allocator false 1 extent_2d 37 16 1 1 1 1
             VK_IMAGE_TILING_OPTIMAL (world0 careful_allocator 0) _
             (World_after (1 : @allocator_state careful_allocator)
                [EvCreateImage
                   (ctor_image_info VK_IMAGE_TYPE_2D extent_2d 37 16 1 1 1
                                    VK_IMAGE_TILING_OPTIMAL)
                   (ctor_memory_info 1 16) VK_SUCCESS 1000 2000]
                (world0 careful_allocator 0))).
    reflexivity.
  - reflexivity.
Qed.

Lemma careful_allocator_contract :
  forall a m r p a',
    @vmaMapMemory careful_allocator a m = (r, p, a') ->
    r = VK_SUCCESS -> p <> nullptr.
Proof.
  intros a m r p a'. cbn. destruct (Z.leb_spec m 0); intros [= <- <- _].
  - discriminate.
  - intros _. unfold nullptr. lia.
Qed.

Lemma mapped_data_implies_mapped_witness : mapped image_mapped = true.
Proof.
  apply (@mapped_data_implies_mapped careful_allocator false).
  - exact image_mapped_reachable.
  - discriminate.
Defined.

Lemma mapped_implies_mapped_data_witness : mapped_data image_mapped <> nullptr.
Proof.
  apply (@mapped_implies_mapped_data careful_allocator false).
  - exact careful_allocator_contract.
  - exact image_mapped_reachable.
  - reflexivity.
Defined.

Lemma Image_map_warnings_witness :
  exists img' w',
    @run_ops careful_allocator [OpMap; OpUnmap; OpMap] image_linear
             (world0 careful_allocator 0) = (Returns img', w')
    /\ count_events is_log_warning (trace w') = O.
Proof.
  assert (Hrun : exists img' w',
             @run_ops careful_allocator [OpMap; OpUnmap; OpMap] image_linear
                      (world0 careful_allocator 0) = (Returns img', w'))
    by (vm_compute; eauto).
  destruct Hrun as (img' & w' & Hrun). exists img', w'.
  split; [exact Hrun|].
  destruct (@Image_map_warnings careful_allocator _ _ _ _ _ Hrun)
    as (Hlinear & _).
  rewrite Hlinear; reflexivity.
Defined.

Lemma Image_owning_lifecycle_balanced_witness :
  exists img0 w1 img w2 img' w3,
    @Image_ctor careful_allocator false 1 extent_2d 37 16 1 1 1 1
                VK_IMAGE_TILING_LINEAR (world0 careful_allocator 0)
      = (Returns img0, w1)
    /\ @run_ops careful_allocator [OpMap; OpMap; OpUnmap; OpMap] img0 w1
       = (Returns img, w2)
    /\ @Image_dtor careful_allocator img w2 = (Returns img', w3)
    /\ count_events is_create_image (trace w3) = 1%nat
    /\ count_events is_destroy_image (trace w3) = 1%nat
    /\ count_events is_map_memory (trace w3)
       = count_events is_unmap_memory (trace w3).
Proof.
  assert (Hctor : exists img0 w1,
             @Image_ctor careful_allocator false 1 extent_2d 37 16 1 1 1 1
                         VK_IMAGE_TILING_LINEAR (world0 careful_allocator 0)
               = (Returns img0, w1)
             /\ handle img0 <> VK_NULL_HANDLE
             /\ memory img0 <> VK_NULL_HANDLE
             /\ exists img w2,
                  @run_ops careful_allocator [OpMap; OpMap; OpUnmap; OpMap]
                           img0 w1 = (Returns img, w2)).
  { eexists _, _. split; [vm_compute; reflexivity|].
    split; [discriminate|]. split; [discriminate|].
    vm_compute. eauto. }
  destruct Hctor as (img0 & w1 & Hctor & Hh & Hm & img & w2 & Hrun).
  destruct (@Image_owning_lifecycle_balanced careful_allocator false
              _ _ _ _ _ _ _ _ _ _ _ _ _ _ _
              careful_allocator_contract Hctor Hh Hm Hrun)
    as (img' & w3 & Hdtor & _ & Hc & Hd & Hbal).
  exists img0, w1, img, w2, img', w3.
  cbn in Hc, Hd, Hbal.
  repeat split; try assumption. lia.
Defined.

Lemma AFBC_recreate_swapchain_flags_witness :
  exists flags,
    AFBCSample.recreate_swapchain
      {| AFBCSample.afbc_enabled := false;
         AFBCSample.afbc_enabled_last_value := false |} ([] : list (AFBCSample.event Z))
      = ({| AFBCSample.afbc_enabled := false;
            AFBCSample.afbc_enabled_last_value := false |},
         [AFBCSample.EvWaitIdle; AFBCSample.EvUpdateSwapchain flags])
    /\ AFBCSample.VK_IMAGE_USAGE_STORAGE_BIT ∈ flags.
Proof.
  destruct (AFBC_recreate_swapchain_flags Z
              {| AFBCSample.afbc_enabled := false;
                 AFBCSample.afbc_enabled_last_value := false |} [])
    as (flags & Hrun & _ & Hstorage & _).
  exists flags. split; [exact Hrun|]. apply Hstorage. reflexivity.
Defined.

Lemma AFBC_update_recreates_iff_changed_witness :
  exists flags,
    AFBCSample.update AFBCSample.quiet_update (16 : Z)
      {| AFBCSample.afbc_enabled := true;
         AFBCSample.afbc_enabled_last_value := false |} []
      = ({| AFBCSample.afbc_enabled := true;
            AFBCSample.afbc_enabled_last_value := true |},
         [AFBCSample.EvWaitIdle; AFBCSample.EvUpdateSwapchain flags;
          AFBCSample.EvVulkanSampleUpdate 16])
    /\ AFBCSample.flags_allow_afbc flags = true.
Proof.
  destruct (AFBC_update_recreates_iff_changed Z AFBCSample.quiet_update 16
              {| AFBCSample.afbc_enabled := true;
                 AFBCSample.afbc_enabled_last_value := false |} [])
    as (s1 & tr1 & Hrun & Hen & Hlast & _ & Hchanged).
  destruct Hchanged as (flags & -> & Hmode); [discriminate|].
  exists flags. split; [|exact Hmode].
  rewrite Hrun. destruct s1 as [en last]. cbn in Hen, Hlast. subst.
  reflexivity.
Defined.

Lemma quiet_update_keeps_swapchain :
  AFBCSample.keeps_swapchain (@AFBCSample.quiet_update Z).
Proof.
  intros delta s tr. unfold AFBCSample.quiet_update. cbn [fst snd].
  split; [reflexivity|]. now rewrite AFBC_swapchain_mode_app.
Qed.

Lemma clicking_update_keeps_swapchain :
  AFBCSample.keeps_swapchain clicking_update.
Proof.
  intros delta s tr. unfold clicking_update, AFBCSample.draw_gui.
  cbn [fst snd AFBCSample.afbc_enabled_last_value].
  split; [reflexivity|]. now rewrite !AFBC_swapchain_mode_app.
Qed.

Lemma quiet_update_no_gui_pass :
  AFBCSample.no_gui_pass (@AFBCSample.quiet_update Z).
Proof.
  intros delta s tr. unfold AFBCSample.quiet_update. cbn [fst snd].
  split; [reflexivity|]. rewrite AFBC_count_recreations_app. cbn. lia.
Qed.

Lemma AFBC_swapchain_in_sync_witness :
  AFBCSample.swapchain_mode
    (snd (AFBCSample.run afbc_frames afbc_start afbc_start_trace)) None
  = Some (AFBCSample.afbc_enabled_last_value
            (fst (AFBCSample.run afbc_frames afbc_start afbc_start_trace))).
Proof.
  apply (AFBC_swapchain_in_sync Z afbc_frames afbc_start afbc_start_trace).
  - repeat (constructor 2;
            [first [exact quiet_update_keeps_swapchain
                   |exact clicking_update_keeps_swapchain
                   |exact I]|]).
    constructor 1.
  - reflexivity.
Defined.

Lemma AFBC_updates_recreate_once_witness :
  AFBCSample.count_recreations
    (snd (AFBCSample.run
            [AFBCSample.StepUpdate AFBCSample.quiet_update 16;
             AFBCSample.StepUpdate AFBCSample.quiet_update 17;
             AFBCSample.StepUpdate AFBCSample.quiet_update 16]
            {| AFBCSample.afbc_enabled := true;
               AFBCSample.afbc_enabled_last_value := false |}
            afbc_start_trace))
  = 2%nat.
Proof.
  apply (AFBC_updates_recreate_once Z
           [(AFBCSample.quiet_update, 16); (AFBCSample.quiet_update, 17);
            (AFBCSample.quiet_update, 16)]
           {| AFBCSample.afbc_enabled := true;
              AFBCSample.afbc_enabled_last_value := false |}
           afbc_start_trace).
  repeat (constructor 2; [exact quiet_update_no_gui_pass|]).
  constructor 1.
Defined.
